(** * AndroidNavigationBaseTemplate: callback registry and configuration walk

    A shallow embedding of
    [src/templates/android/AndroidNavigationBaseTemplate.ts]:
    the [parseConfig] method, which moves the [onPress] callbacks of a
    configuration into the template's [pressableCallbacks] registry, and the
    [buttonPressed] listener installed by the constructor, which dispatches
    on that registry. *)

From stdpp Require Import base strings gmap list pretty.

(** ** JavaScript properties

    The source tells a key that is missing from an object (['id' in action]
    is false) from a key that is there and holds [undefined]
    ([id == null]), so a property has three states. *)

Inductive field (A : Type) : Type :=
  | Absent
  | Undefined
  | Value (a : A).

Arguments Absent {A}.
Arguments Undefined {A}.
Arguments Value {A} a.

Definition fieldValue {A} (x : field A) : option A :=
  match x with
  | Value a => Some a
  | _ => None
  end.

(** ** Inherited properties

    [pressableCallbacks] is a plain object, so a read [object[name]] that
    finds no key of the object goes on to its prototype. What it finds
    there is a value that is not a function, a function that returns when
    called without a receiver, or one that throws. *)

Inductive Inherited :=
  | NotCallable
  | Returns
  | Throws.

Section Template.

(** [Callback] stands for the function values ([() => void]) and [Data] for
    the remaining, non-interactive properties of an object, which the walk
    carries along untouched. *)
Context {Callback Data : Type}.

(** [getCallbackActionId] is imported from [interfaces/Action]; its k-th
    call returns [generated k]. *)
Variable generated : nat → string.

(** ** Data model *)

(** An [AndroidAction] or an [AndroidGridButton]: an optional [id], an
    optional [onPress] and the other properties. The descriptors of the
    clean configuration ([Action], [GridButton]) have the same shape. *)
Record Node := mkNode {
  nodeId : field string;
  onPress : option Callback;
  nodeRest : Data;
}.

Record Pane := mkPane {
  paneActions : field (list Node);
  paneRest : Data;
}.

(** The argument of [parseConfig] and the object it builds. *)
Record Config := mkConfig {
  actions : field (list Node);
  mapButtons : field (list Node);
  navigateAction : field Node;
  pane : field Pane;
  buttons : field (list Node);
  rest : Data;
}.

(** What [parseConfig] reads and writes: the number of identifiers
    generated so far, its local array [callbackIds] and the private
    [pressableCallbacks] object of the template. The object is used as a
    map from identifiers to functions (it is declared
    [{ [key: string]: () => void }]) and is modelled as the finite map of
    its own keys. *)
Record State := mkState {
  nextId : nat;
  callbackIds : list string;
  pressableCallbacks : gmap string Callback;
}.

(** ** A state monad for the walk *)

Definition M (A : Type) : Type := State → A * State.

Definition ret {A} (a : A) : M A := λ s, (a, s).

Definition bind {A B} (c : M A) (k : A → M B) : M B :=
  λ s, let (a, s') := c s in k a s'.

Notation "'let*' x ':=' c 'in' k" := (bind c (λ x, k))
  (at level 10, x name, c at level 100, k at level 200).
Notation "c ';;' k" := (bind c (λ _, k))
  (at level 100, k at level 200, right associativity).

(** [getCallbackActionId()] *)
Definition getCallbackActionId : M string :=
  λ s, (generated (nextId s),
        mkState (S (nextId s)) (callbackIds s) (pressableCallbacks s)).

(** [callbackIds.push(id)] *)
Definition push (id : string) : M unit :=
  λ s, (tt, mkState (nextId s) (callbackIds s ++ [id]) (pressableCallbacks s)).

(** [this.pressableCallbacks[id] = onPress] *)
Definition upsert (id : string) (f : Callback) : M unit :=
  λ s, (tt, mkState (nextId s) (callbackIds s) (<[id := f]> (pressableCallbacks s))).

(** [Array.prototype.map], left to right. *)
Fixpoint arrayMap {A B} (f : A → M B) (l : list A) : M (list B) :=
  match l with
  | [] => ret []
  | x :: l' =>
      let* y := f x in
      let* ys := arrayMap f l' in
      ret (y :: ys)
  end.

(** ** The walk *)

(** ['id' in action ? action.id : getCallbackActionId()]; [None] is a
    result with [id == null]. *)
Definition actionId (action : Node) : M (option string) :=
  match nodeId action with
  | Absent => let* id := getCallbackActionId in ret (Some id)
  | Undefined => ret None
  | Value id => ret (Some id)
  end.

(** [button.id ?? getCallbackActionId()] *)
Definition buttonId_ (button : Node) : M string :=
  match nodeId button with
  | Value id => ret id
  | _ => getCallbackActionId
  end.

(** [{ ...actionRest, id }] *)
Definition withId (node : Node) (id : string) : Node :=
  mkNode (Value id) None (nodeRest node).

(** The arrow function mapped over [pane.actions], [actions] and
    [mapButtons] (the three copies are the same text). *)
Definition normalizeAction (action : Node) : M Node :=
  let* id := actionId action in
  match id with
  | None => ret action
  | Some id =>
      push id ;;
      match onPress action with
      | None => ret action
      | Some f => upsert id f ;; ret (withId action id)
      end
  end.

(** The arrow function mapped over [buttons]. *)
Definition normalizeButton (button : Node) : M Node :=
  let* id := buttonId_ button in
  push id ;;
  match onPress button with
  | None => ret button
  | Some f => upsert id f ;; ret (withId button id)
  end.

(** [pane ? { ...pane, actions: pane?.actions?.map(...) } : undefined] *)
Definition updatePane (p : field Pane) : M (field Pane) :=
  match p with
  | Value p =>
      let* acts :=
        match paneActions p with
        | Value l => let* l' := arrayMap normalizeAction l in ret (Value l')
        | _ => ret Undefined
        end in
      ret (Value (mkPane acts (paneRest p)))
  | _ => ret Undefined
  end.

(** [buttons ? buttons.map(...) : undefined] *)
Definition updateButtons (b : field (list Node)) : M (field (list Node)) :=
  match b with
  | Value l => let* l' := arrayMap normalizeButton l in ret (Value l')
  | _ => ret Undefined
  end.

(** [if (actions != null) { updatedConfig.actions = actions.map(...) }] and
    the same for [mapButtons]: without the array the key is not set. *)
Definition updateActions (a : field (list Node)) : M (field (list Node)) :=
  match a with
  | Value l => let* l' := arrayMap normalizeAction l in ret (Value l')
  | _ => ret Absent
  end.

(** [if (navigateAction) { ... }]: the key is set only under [id != null]. *)
Definition updateNavigateAction (n : field Node) : M (field Node) :=
  match n with
  | Value navigateAction =>
      let* id := actionId navigateAction in
      match id with
      | Some id =>
          push id ;;
          match onPress navigateAction with
          | Some f => upsert id f ;; ret (Value (withId navigateAction id))
          | None => ret (Value navigateAction)
          end
      | None => ret Absent
      end
  | _ => ret Absent
  end.

(** [Object.fromEntries(Object.entries(this.pressableCallbacks).filter(
    ([id]) => callbackIds.includes(id)))] *)
Definition prune : M unit :=
  λ s, (tt, mkState (nextId s) (callbackIds s)
              (filter (λ kv, kv.1 ∈ callbackIds s) (pressableCallbacks s))).

(** [const callbackIds: Array<string> = []] *)
Definition freshCallbackIds : M unit :=
  λ s, (tt, mkState (nextId s) [] (pressableCallbacks s)).

(** Modelled from the spec: [Template.parseConfig], the method of the base
    class that [super.parseConfig(updatedConfig)] calls, is not part of the
    sources at hand. The spec takes the configuration assembled by the walk
    for the clean configuration that is stored and pushed, so the base
    method hands its argument on as it is. *)
Definition super_parseConfig (updatedConfig : Config) : Config := updatedConfig.

(** [parseConfig], in the order of the source: pane, buttons, actions,
    mapButtons, navigateAction, then the pruning of the registry. *)
Definition parseConfig (config : Config) : M Config :=
  freshCallbackIds ;;
  let* updatedPane := updatePane (pane config) in
  let* updatedButtons := updateButtons (buttons config) in
  let* updatedActions := updateActions (actions config) in
  let* updatedMapButtons := updateActions (mapButtons config) in
  let* updatedNavigateAction := updateNavigateAction (navigateAction config) in
  prune ;;
  ret (super_parseConfig
         (mkConfig updatedActions updatedMapButtons updatedNavigateAction
                   updatedPane updatedButtons (rest config))).

(** ** Dispatch *)

(** The payload of a [buttonPressed] event. *)
Record ButtonPressedEvent := mkEvent {
  templateId : option string;
  buttonId : string;
}.

(** What the prototype of [pressableCallbacks] holds under a name; [None]
    when the read gives [undefined]. The prototype belongs to the runtime,
    not to the sources. *)
Variable inherited : string → option Inherited.

(** What the listener did with an event: it returned without a call, it
    called a callback of the registry, or it called a function that the
    registry inherits, which returned or threw. *)
Inductive Outcome :=
  | Dropped
  | Invoked (callback : Callback)
  | InheritedCalled (name : string)
  | InheritedThrew (name : string).

(** The listener of the constructor. It destructures [buttonId] alone and
    reads [this.pressableCallbacks[buttonId]]: a key of the registry comes
    first (the registry is declared to hold functions, so a hit is a
    function), then the prototype. [callback == null] and a value that is
    not a function make it return; anything else is called. *)
Definition buttonPressed (e : ButtonPressedEvent) (s : State) : Outcome :=
  match pressableCallbacks s !! buttonId e with
  | Some callback => Invoked callback
  | None =>
      match inherited (buttonId e) with
      | None => Dropped
      | Some NotCallable => Dropped
      | Some Returns => InheritedCalled (buttonId e)
      | Some Throws => InheritedThrew (buttonId e)
      end
  end.

(** [constructor]: the registry starts as the empty object and the
    configuration is parsed at once; [k] identifiers were generated before. *)
Definition constructor (k : nat) (config : Config) : Config * State :=
  parseConfig config (mkState k [] ∅).

(** ** The walk, node by node *)

(** The two arrow functions of the walk. *)
Inductive Slot :=
  | ActionSlot
  | ButtonSlot.

Definition normalize (k : Slot) : Node → M Node :=
  match k with
  | ActionSlot => normalizeAction
  | ButtonSlot => normalizeButton
  end.

(** What one node does to the state. *)
Definition step (s : State) (x : Slot * Node) : State :=
  (normalize x.1 x.2 s).2.

(** The value of [id] in the arrow function when [c] identifiers were
    generated before; [None] when [id == null]. *)
Definition assignedId (k : Slot) (n : Node) (c : nat) : option string :=
  match nodeId n, k with
  | Value i, _ => Some i
  | Absent, _ => Some (generated c)
  | Undefined, ButtonSlot => Some (generated c)
  | Undefined, ActionSlot => None
  end.

(** How often the arrow function calls [getCallbackActionId]. *)
Definition calls (k : Slot) (n : Node) : nat :=
  match nodeId n, k with
  | Value _, _ => 0
  | Absent, _ => 1
  | Undefined, ButtonSlot => 1
  | Undefined, ActionSlot => 0
  end.

(** The value the arrow function returns. *)
Definition descriptor (k : Slot) (n : Node) (c : nat) : Node :=
  match assignedId k n c, onPress n with
  | Some i, Some _ => withId n i
  | _, _ => n
  end.

(** The entry the arrow function writes into the registry. *)
Definition registration (k : Slot) (n : Node) (c : nat) : list (string * Callback) :=
  match assignedId k n c, onPress n with
  | Some i, Some f => [(i, f)]
  | _, _ => []
  end.

(** The identifier the arrow function pushes onto [callbackIds]. *)
Definition pushed (k : Slot) (n : Node) (c : nat) : list string :=
  match assignedId k n c with
  | Some i => [i]
  | None => []
  end.

Fixpoint descriptors (k : Slot) (c : nat) (l : list Node) : list Node :=
  match l with
  | [] => []
  | n :: l' => descriptor k n c :: descriptors k (calls k n + c) l'
  end.

Fixpoint registrations (c : nat) (items : list (Slot * Node)) : list (string * Callback) :=
  match items with
  | [] => []
  | (k, n) :: items' => registration k n c ++ registrations (calls k n + c) items'
  end.

Fixpoint aliveIds (c : nat) (items : list (Slot * Node)) : list string :=
  match items with
  | [] => []
  | (k, n) :: items' => pushed k n c ++ aliveIds (calls k n + c) items'
  end.

Fixpoint generatorCalls (items : list (Slot * Node)) : nat :=
  match items with
  | [] => 0
  | (k, n) :: items' => calls k n + generatorCalls items'
  end.

(** [registry[id] = callback], entry after entry. *)
Definition upserts (m : gmap string Callback) (l : list (string * Callback)) :
    gmap string Callback :=
  foldl (λ m e, <[e.1 := e.2]> m) m l.

Definition fieldList {A} (f : field (list A)) : list A :=
  match f with
  | Value l => l
  | _ => []
  end.

Definition paneNodes (config : Config) : list Node :=
  match pane config with
  | Value p => fieldList (paneActions p)
  | _ => []
  end.

Definition navigateNodes (config : Config) : list Node :=
  match navigateAction config with
  | Value n => [n]
  | _ => []
  end.

(** The interactive nodes of a configuration in the order in which
    [parseConfig] visits them. *)
Definition walkOrder (config : Config) : list (Slot * Node) :=
  map (pair ActionSlot) (paneNodes config)
  ++ map (pair ButtonSlot) (fieldList (buttons config))
  ++ map (pair ActionSlot) (fieldList (actions config))
  ++ map (pair ActionSlot) (fieldList (mapButtons config))
  ++ map (pair ActionSlot) (navigateNodes config).

Definition slotCalls (k : Slot) (l : list Node) : nat :=
  generatorCalls (map (pair k) l).

(** The object [parseConfig] assembles when [c0] identifiers were generated
    before the call, slot by slot; [parseConfig_closed] below shows that this
    is what the walk returns. *)
Definition cleanConfig (config : Config) (c0 : nat) : Config :=
  let c1 := slotCalls ActionSlot (paneNodes config) + c0 in
  let c2 := slotCalls ButtonSlot (fieldList (buttons config)) + c1 in
  let c3 := slotCalls ActionSlot (fieldList (actions config)) + c2 in
  let c4 := slotCalls ActionSlot (fieldList (mapButtons config)) + c3 in
  mkConfig
    match actions config with
    | Value l => Value (descriptors ActionSlot c2 l)
    | _ => Absent
    end
    match mapButtons config with
    | Value l => Value (descriptors ActionSlot c3 l)
    | _ => Absent
    end
    match navigateAction config with
    | Value n =>
        match assignedId ActionSlot n c4 with
        | Some _ => Value (descriptor ActionSlot n c4)
        | None => Absent
        end
    | _ => Absent
    end
    match pane config with
    | Value p =>
        Value (mkPane
                 match paneActions p with
                 | Value l => Value (descriptors ActionSlot c0 l)
                 | _ => Undefined
                 end
                 (paneRest p))
    | _ => Undefined
    end
    match buttons config with
    | Value l => Value (descriptors ButtonSlot c1 l)
    | _ => Undefined
    end
    (rest config).

(** [walkOrder] with every node replaced by what its arrow function
    returns. *)
Fixpoint itemDescriptors (c : nat) (items : list (Slot * Node)) : list (Slot * Node) :=
  match items with
  | [] => []
  | (k, n) :: items' => (k, descriptor k n c) :: itemDescriptors (calls k n + c) items'
  end.

(** ** Configurations of the properties *)

(** [{}], next to the pass-through properties. *)
Definition emptyConfig (d : Data) : Config :=
  mkConfig Absent Absent Absent Absent Absent d.

(** [{ actions: l }] *)
Definition actionsOnly (l : list Node) (d : Data) : Config :=
  mkConfig (Value l) Absent Absent Absent Absent d.

(** [{ buttons: l }] *)
Definition buttonsOnly (l : list Node) (d : Data) : Config :=
  mkConfig Absent Absent Absent Absent (Value l) d.

(** The node carries an explicit identifier: the [id] key holds a string. *)
Definition hasExplicitId (n : Node) : bool :=
  match nodeId n with
  | Value _ => true
  | _ => false
  end.

(** Every interactive node of the configuration carries an explicit
    identifier. *)
Definition allExplicit (config : Config) : bool :=
  forallb (λ x, hasExplicitId x.2) (walkOrder config).

(** The identifiers of the descriptors [outs] whose nodes in [ins] (same
    position) carry a callback. *)
Definition bearingIds (ins outs : list Node) : list string :=
  omap (λ io, match onPress io.1 with
              | Some _ => fieldValue (nodeId io.2)
              | None => None
              end)
       (zip ins outs).

(** In the words of the spec: the identifiers present in the clean
    configuration that originated from callback-bearing nodes of the
    configuration. *)
Definition callbackBearingIds (config clean : Config) : list string :=
  bearingIds (paneNodes config) (paneNodes clean)
  ++ bearingIds (fieldList (buttons config)) (fieldList (buttons clean))
  ++ bearingIds (fieldList (actions config)) (fieldList (actions clean))
  ++ bearingIds (fieldList (mapButtons config)) (fieldList (mapButtons clean))
  ++ bearingIds (navigateNodes config) (navigateNodes clean).

End Template.



(** ** Concrete inputs

    Callbacks are named by strings and the pass-through properties are
    trivial; the generator counts. *)

Definition counting (k : nat) : string := "cb-" +:+ pretty k.

Definition noCallbacks : State (Callback := string) := mkState 0 [] ∅.

(** [{ buttons: [{}] }] *)
Definition oneBareButton : Config (Callback := string) (Data := unit) :=
  buttonsOnly [mkNode Absent None tt] tt.

(** [{ buttons: [{ onPress: f }] }] *)
Definition onePressableButton : Config (Callback := string) (Data := unit) :=
  buttonsOnly [mkNode Absent (Some "f") tt] tt.

(** [{ actions: [{ id: "a", onPress: f1 }] }] and [{ actions: [{ id: "a" }] }] *)
Definition actionA (f : option string) : Config (Callback := string) (Data := unit) :=
  actionsOnly [mkNode (Value "a") f tt] tt.

(** [{ actions: [{ id: undefined, onPress: f }] }] *)
Definition undefinedIdAction : Config (Callback := string) (Data := unit) :=
  actionsOnly [mkNode Undefined (Some "f") tt] tt.

(** [{ actions: [{ id: "x", onPress: f1 }], mapButtons: [{ id: "x", onPress: f2 }] }] *)
Definition sharedId : Config (Callback := string) (Data := unit) :=
  mkConfig (Value [mkNode (Value "x") (Some "f1") tt])
           (Value [mkNode (Value "x") (Some "f2") tt])
           Absent Absent Absent tt.

(** Every slot filled, every node with an explicit identifier. *)
Definition explicitConfig : Config (Callback := string) (Data := unit) :=
  mkConfig (Value [mkNode (Value "a") (Some "f1") tt; mkNode (Value "b") None tt])
           (Value [mkNode (Value "m") (Some "f2") tt])
           (Value (mkNode (Value "n") (Some "f3") tt))
           (Value (mkPane (Value [mkNode (Value "p") (Some "f4") tt]) tt))
           (Value [mkNode (Value "g") None tt])
           tt.

(** A registry with one entry, [x]. *)
Definition registryX : State (Callback := string) :=
  mkState 3 [] {[ "x" := "f" ]}.

(** [{ actions: [{ onPress: f }, { onPress: g }] }] *)
Definition twoGenerated : Config (Callback := string) (Data := unit) :=
  actionsOnly [mkNode Absent (Some "f") tt; mkNode Absent (Some "g") tt] tt.

(** [Object.prototype] as ECMAScript has it, each function called the way
    the listener calls it, with no receiver and no argument: [toString]
    answers for [undefined], [isPrototypeOf] and the [Object] constructor
    return, the others start by converting the receiver to an object and
    throw a [TypeError]; [__proto__] reads as an object. *)
Definition objectPrototype (name : string) : option Inherited :=
  if bool_decide (name ∈ ["constructor"; "isPrototypeOf"; "toString"])
  then Some Returns
  else if bool_decide (name ∈ ["hasOwnProperty"; "propertyIsEnumerable";
                               "toLocaleString"; "valueOf";
                               "__defineGetter__"; "__defineSetter__";
                               "__lookupGetter__"; "__lookupSetter__"])
  then Some Throws
  else if bool_decide (name = "__proto__")
  then Some NotCallable
  else None.

(** * CarPlayTelemetryObserver

    A shallow embedding of
    [android/src/main/java/org/birkir/carplay/CarPlayTelemetryObserver.kt]:
    the singleton's fields, its four car data listeners, the periodic
    emitter and the start and stop functions. Every operation runs to its
    end before the next one starts, as the listeners and the emitter do on
    the main thread. Calls into the Android and React Native libraries are
    recorded in a log, in the order in which the source makes them; a
    [SecurityException] of a car hardware call is caught and ignored by the
    source, so the log holds the call whether it threw or not. *)

Module Telemetry.

(** [CarValue.status]; the source compares with [STATUS_SUCCESS] only. *)
Inductive CarValueStatus :=
  | STATUS_SUCCESS
  | STATUS_UNKNOWN
  | STATUS_UNIMPLEMENTED
  | STATUS_UNAVAILABLE.

Definition isSuccess (st : CarValueStatus) : bool :=
  match st with
  | STATUS_SUCCESS => true
  | _ => false
  end.

(** [CarValue<T>]: [value] is nullable. *)
Record CarValue (T : Type) := mkCarValue {
  status : CarValueStatus;
  value : option T;
  timestampMillis : Z;
}.

Arguments mkCarValue {T} status value timestampMillis.
Arguments status {T} c.
Arguments value {T} c.
Arguments timestampMillis {T} c.

(** [CarContext], with a name to tell two contexts apart. *)
Record CarContext := mkCarContext {
  contextName : string;
  carAppApiLevel : nat;
}.

Section Observer.

(** [Float] are the readings of the car, [Double] what is put into the
    maps. The floating point conversions stay abstract. *)
Context {Float Double : Type}.

(** [it.toDouble()], [it.div(1000.0)], [it.times(3.6)] and
    [millis / 1000.0]. *)
Variable toDouble : Float → Double.
Variable divThousand : Float → Double.
Variable timesKmh : Float → Double.
Variable seconds : Z → Double.

(** [CarAppApiLevels.LEVEL_3] and [BuildConfig.CARPLAY_TELEMETRY_INTERVAL_MS]. *)
Variable LEVEL_3 : nat.
Variable CARPLAY_TELEMETRY_INTERVAL_MS : Z.

(** The map put under a telemetry key: ["value"] (a double, or null) and
    ["timestamp"]. *)
Record Reading := mkReading {
  readingValue : option Double;
  readingTimestamp : Double;
}.

(** An entry of the ["vehicle"] map. *)
Record VehicleEntry (T : Type) := mkVehicleEntry {
  entryValue : option T;
  entryTimestamp : Double;
}.

Arguments mkVehicleEntry {T} entryValue entryTimestamp.

(** The ["vehicle"] map; [None] is a key that was not put. *)
Record Vehicle := mkVehicle {
  vehicleName : option (VehicleEntry string);
  vehicleManufacturer : option (VehicleEntry string);
  vehicleYear : option (VehicleEntry Z);
}.

(** The argument of [eventEmitter.telemetry]. *)
Inductive Payload :=
  | VehiclePayload (vehicle : Vehicle)
  | TelemetryPayload (snapshot : gmap string Reading).

(** The calls that leave the object. Event emitters are told apart by a
    name. *)
Inductive Effect :=
  | FetchModel (ctx : CarContext)
  | AddEnergyLevelListener (ctx : CarContext)
  | AddSpeedListener (ctx : CarContext)
  | AddMileageListener (ctx : CarContext)
  | RemoveEnergyLevelListener (ctx : CarContext)
  | RemoveSpeedListener (ctx : CarContext)
  | RemoveMileageListener (ctx : CarContext)
  | Post
  | PostDelayed (delay : Z)
  | RemoveCallbacks
  | Resolve (message : string)
  | Reject (level : nat)
  | Emit (emitter : string) (payload : Payload).

(** The fields of the object, and the log. *)
Record Observer := mkObserver {
  isRunning : bool;
  carContext : option CarContext;
  eventEmitter : option string;
  telemetry : gmap string Reading;
  isTelemetryDirty : bool;
  effects : list Effect;
}.

Definition initial : Observer := mkObserver false None None ∅ false [].

(** The data of the four listeners. *)
Record Model := mkModel {
  name : CarValue string;
  manufacturer : CarValue string;
  year : CarValue Z;
}.

Record EnergyLevel := mkEnergyLevel {
  batteryPercent : CarValue Float;
  fuelPercent : CarValue Float;
  rangeRemainingMeters : CarValue Float;
}.

Record Speed := mkSpeed {
  displaySpeedMetersPerSecond : CarValue Float;
}.

Record Mileage := mkMileage {
  odometerMeters : CarValue Float;
}.

Definition log (e : Effect) (o : Observer) : Observer :=
  mkObserver (isRunning o) (carContext o) (eventEmitter o) (telemetry o)
             (isTelemetryDirty o) (effects o ++ [e]).

(** [telemetry.putMap(key, ...)] followed by [isTelemetryDirty = true]. *)
Definition putReading (key : string) (v : option Double) (timestamp : Double)
    (o : Observer) : Observer :=
  mkObserver (isRunning o) (carContext o) (eventEmitter o)
             (<[key := mkReading v timestamp]> (telemetry o)) true (effects o).

(** [eventEmitter?.telemetry(payload)] *)
Definition emit (payload : Payload) (o : Observer) : Observer :=
  match eventEmitter o with
  | Some e => log (Emit e payload) o
  | None => o
  end.

(** The entry of the vehicle map for one value of the model. *)
Definition vehicleEntry {T} (v : CarValue T) : option (VehicleEntry T) :=
  if isSuccess (status v)
  then Some (mkVehicleEntry (value v) (seconds (timestampMillis v)))
  else None.

Definition mModelListener (it : Model) (o : Observer) : Observer :=
  emit (VehiclePayload
          (mkVehicle (vehicleEntry (name it)) (vehicleEntry (manufacturer it))
                     (vehicleEntry (year it))))
       o.

(** [now] is [System.currentTimeMillis()]. *)
Definition mEnergyLevelListener (carEnergyLevel : EnergyLevel) (now : Z)
    (o : Observer) : Observer :=
  let timestamp := seconds now in
  let o1 :=
    if isSuccess (status (batteryPercent carEnergyLevel))
    then putReading "batteryLevel"
           (toDouble <$> value (batteryPercent carEnergyLevel)) timestamp o
    else o in
  let o2 :=
    if isSuccess (status (fuelPercent carEnergyLevel))
    then putReading "fuelLevel"
           (toDouble <$> value (fuelPercent carEnergyLevel)) timestamp o1
    else o1 in
  if isSuccess (status (rangeRemainingMeters carEnergyLevel))
  then putReading "range"
         (divThousand <$> value (rangeRemainingMeters carEnergyLevel)) timestamp o2
  else o2.

(** A speed with a value is put under ["odometer"]; only the null branch
    writes ["speed"]. *)
Definition mSpeedListener (carSpeed : Speed) (now : Z) (o : Observer) : Observer :=
  if isSuccess (status (displaySpeedMetersPerSecond carSpeed))
  then
    let timestamp := seconds now in
    match value (displaySpeedMetersPerSecond carSpeed) with
    | Some it => putReading "odometer" (Some (timesKmh it)) timestamp o
    | None => putReading "speed" None timestamp o
    end
  else o.

Definition mMileageListener (carMileage : Mileage) (now : Z) (o : Observer) : Observer :=
  if isSuccess (status (odometerMeters carMileage))
  then
    let timestamp := seconds now in
    putReading "odometer" (divThousand <$> value (odometerMeters carMileage))
      timestamp o
  else o.

(** [emitter.run()] *)
Definition emitterRun (o : Observer) : Observer :=
  let o1 :=
    if isTelemetryDirty o
    then
      let o' := emit (TelemetryPayload (telemetry o)) o in
      mkObserver (isRunning o') (carContext o') (eventEmitter o') (telemetry o')
                 false (effects o')
    else o in
  log (PostDelayed CARPLAY_TELEMETRY_INTERVAL_MS) o1.

Definition startTelemetryObserver (ctx : CarContext) (emitter : string)
    (o : Observer) : Observer :=
  let o0 :=
    mkObserver (isRunning o) (Some ctx) (Some emitter) (telemetry o)
               (isTelemetryDirty o) (effects o) in
  if carAppApiLevel ctx <? LEVEL_3
  then log (Reject (carAppApiLevel ctx)) o0
  else
    let o1 := log (FetchModel ctx) o0 in
    if isRunning o1
    then log (Resolve "Telemetry observer is already running") o1
    else
      let o2 := log (AddEnergyLevelListener ctx) o1 in
      let o3 := log (AddSpeedListener ctx) o2 in
      let o4 := log (AddMileageListener ctx) o3 in
      let o5 := log Post o4 in
      let o6 :=
        mkObserver true (carContext o5) (eventEmitter o5) (telemetry o5)
                   (isTelemetryDirty o5) (effects o5) in
      log (Resolve "Telemetry observer started") o6.

Definition stopTelemetryObserver (o : Observer) : Observer :=
  let o1 :=
    match carContext o with
    | Some it =>
        log (RemoveMileageListener it)
          (log (RemoveSpeedListener it) (log (RemoveEnergyLevelListener it) o))
    | None => o
    end in
  let o2 := log RemoveCallbacks o1 in
  mkObserver false (carContext o2) (eventEmitter o2) (telemetry o2)
             (isTelemetryDirty o2) (effects o2).

(** ** Runs *)

(** What happens to the object from outside. *)
Inductive Input :=
  | Start (ctx : CarContext) (emitter : string)
  | Stop
  | ModelData (m : Model)
  | EnergyLevelData (e : EnergyLevel) (now : Z)
  | SpeedData (sp : Speed) (now : Z)
  | MileageData (m : Mileage) (now : Z)
  | Tick.

Definition step (o : Observer) (i : Input) : Observer :=
  match i with
  | Start ctx emitter => startTelemetryObserver ctx emitter o
  | Stop => stopTelemetryObserver o
  | ModelData m => mModelListener m o
  | EnergyLevelData e now => mEnergyLevelListener e now o
  | SpeedData sp now => mSpeedListener sp now o
  | MileageData m now => mMileageListener m now o
  | Tick => emitterRun o
  end.

Definition run (o : Observer) (inputs : list Input) : Observer :=
  foldl step o inputs.

(** The input carries at least one value that a listener stores. *)
Definition stores (i : Input) : bool :=
  match i with
  | EnergyLevelData e _ =>
      isSuccess (status (batteryPercent e))
      || isSuccess (status (fuelPercent e))
      || isSuccess (status (rangeRemainingMeters e))
  | SpeedData sp _ => isSuccess (status (displaySpeedMetersPerSecond sp))
  | MileageData m _ => isSuccess (status (odometerMeters m))
  | _ => false
  end.

Definition isTelemetryEmit (e : Effect) : bool :=
  match e with
  | Emit _ (TelemetryPayload _) => true
  | _ => false
  end.

Definition isPost (e : Effect) : bool :=
  match e with
  | Post => true
  | _ => false
  end.

Definition isRemoveCallbacks (e : Effect) : bool :=
  match e with
  | RemoveCallbacks => true
  | _ => false
  end.

Definition isAddListener (e : Effect) : bool :=
  match e with
  | AddEnergyLevelListener _ | AddSpeedListener _ | AddMileageListener _ => true
  | _ => false
  end.

Definition count (p : Effect → bool) (l : list Effect) : nat :=
  length (filter (λ e, p e = true) l).

(** The keys the listeners write. *)
Definition telemetryKeys : list string :=
  ["batteryLevel"; "fuelLevel"; "range"; "odometer"; "speed"].

End Observer.

(** ** Concrete inputs: numbers stand for the floats, scaled *)

Definition kmh (x : Z) : Z := ((x * 36) `div` 10)%Z.
Definition thousandth (x : Z) : Z := (x `div` 1000)%Z.

Definition car : CarContext := mkCarContext "car" 5.
Definition oldCar : CarContext := mkCarContext "old" 1.

Definition speedOf (v : option Z) : Speed (Float := Z) :=
  mkSpeed (mkCarValue STATUS_SUCCESS v 0).

Definition mileageOf (st : CarValueStatus) (v : option Z) : Mileage (Float := Z) :=
  mkMileage (mkCarValue st v 0).

Definition energyOf (st : CarValueStatus) (v : option Z) : EnergyLevel (Float := Z) :=
  mkEnergyLevel (mkCarValue st v 0) (mkCarValue STATUS_UNAVAILABLE None 0)
                (mkCarValue STATUS_UNAVAILABLE None 0).

(** Start, a speed of 20 m/s, a tick, a second start, a stop. *)
Definition drive : list (Input (Float := Z)) :=
  [Start car "rn"; SpeedData (speedOf (Some 20%Z)) 1000; Tick; Start car "rn"; Stop].

Definition runZ : list (Input (Float := Z)) → Observer (Double := Z) :=
  run id thousandth kmh thousandth 3 1000 initial.

End Telemetry.

Arguments upserts {Callback} m l : simpl never.

(** * Facts about the walk *)

Section Facts.

Context {Callback Data : Type}.
Variable generated : nat → string.

Local Abbreviation Node := (@Node Callback Data).
Local Abbreviation Config := (@Config Callback Data).
Local Abbreviation State := (@State Callback).

(** ** The monad *)

Lemma bind_run {A B} (c : M A) (k : A → M B) (s : State) :
  bind c k s = k (c s).1 (c s).2.
Proof. unfold bind. by destruct (c s). Qed.

Lemma arrayMap_cons {A B} (f : A → M B) (x : A) (l : list A) (s : State) :
  arrayMap f (x :: l) s
  = ((f x s).1 :: (arrayMap f l (f x s).2).1, (arrayMap f l (f x s).2).2).
Proof. simpl. by rewrite !bind_run. Qed.

(** ** One node *)

Lemma normalize_closed (k : Slot) (n : Node) (s : State) :
  normalize generated k n s
  = (descriptor generated k n (nextId s),
     mkState (calls k n + nextId s)
             (callbackIds s ++ pushed generated k n (nextId s))
             (upserts (pressableCallbacks s) (registration generated k n (nextId s)))).
Proof.
  destruct s as [c ids reg], n as [[| |i] [f|] r], k;
    cbn; rewrite ?app_nil_r; reflexivity.
Qed.

Lemma step_closed (s : State) (k : Slot) (n : Node) :
  step generated s (k, n)
  = mkState (calls k n + nextId s)
            (callbackIds s ++ pushed generated k n (nextId s))
            (upserts (pressableCallbacks s) (registration generated k n (nextId s))).
Proof. unfold step. by rewrite normalize_closed. Qed.

(** ** A list of nodes *)

Lemma upserts_app (m : gmap string Callback) (l1 l2 : list (string * Callback)) :
  upserts m (l1 ++ l2) = upserts (upserts m l1) l2.
Proof. apply foldl_app. Qed.

Lemma foldl_step_closed (items : list (Slot * Node)) (s : State) :
  foldl (step generated) s items
  = mkState (generatorCalls items + nextId s)
            (callbackIds s ++ aliveIds generated (nextId s) items)
            (upserts (pressableCallbacks s) (registrations generated (nextId s) items)).
Proof.
  revert s. induction items as [|[k n] items IH]; intros s.
  - destruct s. cbn. by rewrite app_nil_r.
  - cbn [foldl]. rewrite IH, step_closed. cbn.
    rewrite upserts_app, <- app_assoc. f_equal. lia.
Qed.

Lemma generatorCalls_app (l1 l2 : list (Slot * Node)) :
  generatorCalls (l1 ++ l2) = generatorCalls l1 + generatorCalls l2.
Proof. induction l1 as [|[k n] l1 IH]; cbn; lia. Qed.

Lemma registrations_app (l1 l2 : list (Slot * Node)) (c : nat) :
  registrations generated c (l1 ++ l2)
  = registrations generated c l1
    ++ registrations generated (generatorCalls l1 + c) l2.
Proof.
  revert c. induction l1 as [|[k n] l1 IH]; intros c; [done|].
  cbn. rewrite IH, <- app_assoc. do 3 f_equal. lia.
Qed.

Lemma aliveIds_app (l1 l2 : list (Slot * Node)) (c : nat) :
  aliveIds generated c (l1 ++ l2)
  = aliveIds generated c l1 ++ aliveIds generated (generatorCalls l1 + c) l2.
Proof.
  revert c. induction l1 as [|[k n] l1 IH]; intros c; [done|].
  cbn. rewrite IH, <- app_assoc. do 3 f_equal. lia.
Qed.

Lemma arrayMap_normalize (k : Slot) (l : list Node) (s : State) :
  arrayMap (normalize generated k) l s
  = (descriptors generated k (nextId s) l,
     foldl (step generated) s (map (pair k) l)).
Proof.
  revert s. induction l as [|n l IH]; intros s; [done|].
  rewrite arrayMap_cons, IH, normalize_closed.
  cbn [map foldl descriptors fst snd nextId]. by rewrite step_closed.
Qed.

(** ** The five slots *)

Lemma updateActions_closed (a : field (list Node)) (s : State) :
  updateActions generated a s
  = (match a with
     | Value l => Value (descriptors generated ActionSlot (nextId s) l)
     | _ => Absent
     end,
     foldl (step generated) s (map (pair ActionSlot) (fieldList a))).
Proof.
  destruct a as [| |l]; try done.
  cbn [updateActions fieldList]. rewrite bind_run.
  change (@normalizeAction Callback Data generated)
    with (@normalize Callback Data generated ActionSlot).
  by rewrite arrayMap_normalize.
Qed.

Lemma updateButtons_closed (b : field (list Node)) (s : State) :
  updateButtons generated b s
  = (match b with
     | Value l => Value (descriptors generated ButtonSlot (nextId s) l)
     | _ => Undefined
     end,
     foldl (step generated) s (map (pair ButtonSlot) (fieldList b))).
Proof.
  destruct b as [| |l]; try done.
  cbn [updateButtons fieldList]. rewrite bind_run.
  change (@normalizeButton Callback Data generated)
    with (@normalize Callback Data generated ButtonSlot).
  by rewrite arrayMap_normalize.
Qed.

Lemma updatePane_closed (p : field Pane) (s : State) :
  updatePane generated p s
  = (match p with
     | Value p =>
         Value (mkPane
                  match paneActions p with
                  | Value l => Value (descriptors generated ActionSlot (nextId s) l)
                  | _ => Undefined
                  end
                  (paneRest p))
     | _ => Undefined
     end,
     foldl (step (Data:=Data) generated) s
       (map (pair ActionSlot)
          match p with
          | Value p => fieldList (paneActions p)
          | _ => []
          end)).
Proof.
  destruct p as [| |[[| |l] r]]; try done.
  cbn [updatePane fieldList paneActions paneRest]. rewrite !bind_run.
  change (@normalizeAction Callback Data generated)
    with (@normalize Callback Data generated ActionSlot).
  by rewrite arrayMap_normalize.
Qed.

Lemma updateNavigateAction_closed (n : field Node) (s : State) :
  updateNavigateAction generated n s
  = (match n with
     | Value n =>
         match assignedId generated ActionSlot n (nextId s) with
         | Some _ => Value (descriptor generated ActionSlot n (nextId s))
         | None => Absent
         end
     | _ => Absent
     end,
     foldl (step (Data:=Data) generated) s
       (map (pair ActionSlot)
          match n with
          | Value n => [n]
          | _ => []
          end)).
Proof.
  destruct n as [| |[[| |i] [f|] r]]; try done; by destruct s.
Qed.

Lemma nextId_foldl_step (items : list (Slot * Node)) (s : State) :
  nextId (foldl (step generated) s items) = generatorCalls items + nextId s.
Proof. by rewrite foldl_step_closed. Qed.

(** ** The whole call *)

Lemma parseConfig_closed (config : Config) (s : State) :
  parseConfig generated config s
  = (cleanConfig generated config (nextId s),
     mkState (generatorCalls (walkOrder config) + nextId s)
             (aliveIds generated (nextId s) (walkOrder config))
             (filter (λ kv, kv.1 ∈ aliveIds generated (nextId s) (walkOrder config))
                (upserts (pressableCallbacks s)
                   (registrations generated (nextId s) (walkOrder config))))).
Proof.
  unfold parseConfig. rewrite !bind_run.
  rewrite updatePane_closed. cbn [fst snd].
  rewrite updateButtons_closed. cbn [fst snd].
  rewrite updateActions_closed. cbn [fst snd].
  rewrite updateActions_closed. cbn [fst snd].
  rewrite updateNavigateAction_closed. cbn [fst snd].
  rewrite !nextId_foldl_step, <- !foldl_app.
  unfold prune, ret, super_parseConfig. cbn [fst snd].
  fold (paneNodes config) (navigateNodes config).
  rewrite foldl_step_closed. unfold walkOrder. cbn.
  reflexivity.
Qed.

(** ** The registry *)

Lemma upserts_cons (m : gmap string Callback) (i : string) (f : Callback)
    (l : list (string * Callback)) :
  upserts m ((i, f) :: l) = upserts (<[i := f]> m) l.
Proof. reflexivity. Qed.

Lemma upserts_nil (m : gmap string Callback) : upserts m [] = m.
Proof. reflexivity. Qed.

Lemma lookup_upserts_notin (l : list (string * Callback)) (m : gmap string Callback)
    (i : string) :
  i ∉ l.*1 → upserts m l !! i = m !! i.
Proof.
  revert m. induction l as [|[j f] l IH]; intros m Hi; [done|].
  rewrite fmap_cons in Hi. apply not_elem_of_cons in Hi as [Hne Hi].
  rewrite upserts_cons, IH by done. by apply lookup_insert_ne.
Qed.

Lemma lookup_upserts_last (l1 l2 : list (string * Callback)) (m : gmap string Callback)
    (i : string) (f : Callback) :
  i ∉ l2.*1 → upserts m (l1 ++ (i, f) :: l2) !! i = Some f.
Proof.
  intros Hi. rewrite upserts_app, upserts_cons, lookup_upserts_notin by done.
  apply lookup_insert_eq.
Qed.

Lemma elem_of_dom_upserts (l : list (string * Callback)) (m : gmap string Callback)
    (i : string) :
  i ∈ dom (upserts m l) ↔ i ∈ dom m ∨ i ∈ l.*1.
Proof.
  revert m. induction l as [|[j f] l IH]; intros m.
  - rewrite upserts_nil. split; [by left|].
    intros [Hi|Hi]; [done|by apply elem_of_nil in Hi].
  - rewrite upserts_cons, IH, dom_insert, elem_of_union, elem_of_singleton,
      fmap_cons, elem_of_cons. cbn. intuition congruence.
Qed.

Lemma lookup_pruned (ids : list string) (m : gmap string Callback) (i : string) :
  filter (λ kv : string * Callback, kv.1 ∈ ids) m !! i
  = if decide (i ∈ ids) then m !! i else None.
Proof.
  case_decide as Hi.
  - destruct (m !! i) as [f|] eqn:Hm.
    + by apply map_lookup_filter_Some_2.
    + apply map_lookup_filter_None. left. done.
  - apply map_lookup_filter_None. right. intros f _. done.
Qed.

(** * Dispatch *)

Section Dispatch.

Variable inherited : string → option Inherited.

(** On a miss the listener goes by what the registry inherits under the
    name: it drops the event only if that is nothing or not a function. *)
Lemma buttonPressed_miss (e : ButtonPressedEvent) (s : State) :
  pressableCallbacks s !! buttonId e = None →
  buttonPressed inherited e s
  = match inherited (buttonId e) with
    | Some Returns => InheritedCalled (buttonId e)
    | Some Throws => InheritedThrew (buttonId e)
    | _ => Dropped
    end.
Proof.
  unfold buttonPressed. intros ->. by destruct (inherited _) as [[| |]|].
Qed.

(** C9. The listener looks at [buttonId] only: two events with the same
    [buttonId] get the same treatment whatever their [templateId], and a
    callback registered under the [buttonId] is called for any
    [templateId]. *)
Theorem buttonPressed_ignores_templateId (e1 e2 : ButtonPressedEvent) (s : State) :
  buttonId e1 = buttonId e2 →
  buttonPressed inherited e1 s = buttonPressed inherited e2 s
  ∧ ∀ f, pressableCallbacks s !! buttonId e1 = Some f →
         buttonPressed inherited e2 s = Invoked f.
Proof.
  intros Heq. unfold buttonPressed. rewrite <- Heq. split; [done|].
  by intros f ->.
Qed.

(** * Update at a stable identifier *)

(** C4. After [parseConfig] with the action [{id: x, onPress: f1}] and then
    with [{id: x, onPress: f2}], a [buttonPressed] event for [x] calls [f2],
    and nothing else: the second upsert replaced [f1], which was what the
    event called between the two calls. *)
Theorem reconfigure_replaces_callback (x : string) (f1 f2 : Callback)
    (r1 r2 d1 d2 : Data) (t : option string) (s : State) :
  let s1 := (parseConfig generated (actionsOnly [mkNode (Value x) (Some f1) r1] d1) s).2 in
  let s2 := (parseConfig generated (actionsOnly [mkNode (Value x) (Some f2) r2] d2) s1).2 in
  buttonPressed inherited (mkEvent t x) s1 = Invoked f1
  ∧ buttonPressed inherited (mkEvent t x) s2 = Invoked f2.
Proof.
  cbv zeta. rewrite !parseConfig_closed. unfold buttonPressed.
  cbn [snd pressableCallbacks buttonId walkOrder actionsOnly paneNodes
       navigateNodes fieldList pane actions mapButtons buttons navigateAction
       map app registrations aliveIds registration pushed assignedId nodeId
       onPress].
  rewrite !lookup_pruned, !decide_True by apply list_elem_of_here.
  rewrite !upserts_cons, !upserts_nil, !lookup_insert_eq. done.
Qed.

End Dispatch.

(** * Absent slots *)

(** C8. On the empty configuration the clean configuration has no
    [navigateAction] key and the registry is empty afterwards; and whenever
    the [navigateAction] field is missing, the key is missing from the clean
    configuration and the call generates the identifiers of the other four
    slots only. *)
Theorem parseConfig_without_navigateAction (s : State) :
  (∀ d : Data, let r := parseConfig generated (emptyConfig d) s in
        navigateAction r.1 = Absent
        ∧ pressableCallbacks r.2 = ∅
        ∧ nextId r.2 = nextId s)
  ∧ (∀ config : Config,
       fieldValue (navigateAction config) = None →
       let r := parseConfig generated config s in
       navigateAction r.1 = Absent
       ∧ nextId r.2
         = slotCalls ActionSlot (paneNodes config)
           + slotCalls ButtonSlot (fieldList (buttons config))
           + slotCalls ActionSlot (fieldList (actions config))
           + slotCalls ActionSlot (fieldList (mapButtons config))
           + nextId s).
Proof.
  split.
  - intros d. cbv zeta. rewrite parseConfig_closed. cbn.
    split; [done|]. split; [|done].
    apply map_eq. intros i. rewrite lookup_pruned, lookup_empty.
    case_decide as Hi; [|done]. by apply elem_of_nil in Hi.
  - intros config Hnav. cbv zeta. rewrite parseConfig_closed.
    cbn [fst snd nextId]. split.
    + unfold cleanConfig. cbn [navigateAction].
      by destruct (navigateAction config).
    + unfold walkOrder, navigateNodes, slotCalls.
      destruct (navigateAction config); try done;
        rewrite app_nil_r; rewrite !generatorCalls_app; lia.
Qed.

(** C10. When the [pane] field (the [buttons] field) is absent, the clean
    configuration still has the [pane] key (the [buttons] key), bound to
    [undefined]; absent [actions], [mapButtons] and [navigateAction] fields
    leave no key behind. *)
Theorem absent_fields_in_clean_config (config : Config) (s : State) :
  let clean := (parseConfig generated config s).1 in
  (pane config = Absent → pane clean = Undefined)
  ∧ (buttons config = Absent → buttons clean = Undefined)
  ∧ (actions config = Absent → actions clean = Absent)
  ∧ (mapButtons config = Absent → mapButtons clean = Absent)
  ∧ (navigateAction config = Absent → navigateAction clean = Absent).
Proof.
  cbv zeta. rewrite parseConfig_closed. unfold cleanConfig. cbn.
  repeat split; by intros ->.
Qed.

(** * Explicit identifiers *)

Lemma descriptor_explicit (k : Slot) (n : Node) (c c' : nat) :
  hasExplicitId n = true →
  descriptor generated k n c = descriptor generated k n c'
  ∧ nodeId (descriptor generated k n c) = nodeId n.
Proof. destruct n as [[| |i] [f|] r], k; done. Qed.

Lemma descriptors_explicit (k : Slot) (l : list Node) (c c' : nat) :
  forallb hasExplicitId l = true →
  descriptors generated k c l = descriptors generated k c' l
  ∧ map nodeId (descriptors generated k c l) = map nodeId l.
Proof.
  revert c c'. induction l as [|n l IH]; intros c c' Hl; [done|].
  cbn in Hl. apply andb_prop in Hl as [Hn Hl]. cbn [descriptors map].
  destruct (descriptor_explicit k n c c' Hn) as [-> ->].
  destruct (IH (calls k n + c) (calls k n + c') Hl) as [-> ->]. done.
Qed.

Lemma forallb_slot (k : Slot) (l : list Node) :
  forallb (λ x : Slot * Node, hasExplicitId x.2) (map (pair k) l)
  = forallb hasExplicitId l.
Proof. induction l as [|n l IH]; [done|]. cbn. by rewrite IH. Qed.

Lemma allExplicit_slots (config : Config) :
  allExplicit config = true →
  forallb hasExplicitId (paneNodes config) = true
  ∧ forallb hasExplicitId (fieldList (buttons config)) = true
  ∧ forallb hasExplicitId (fieldList (actions config)) = true
  ∧ forallb hasExplicitId (fieldList (mapButtons config)) = true
  ∧ forallb hasExplicitId (navigateNodes config) = true.
Proof.
  unfold allExplicit, walkOrder.
  rewrite !forallb_app, !forallb_slot, !andb_true_iff. tauto.
Qed.

(** C6. When every interactive node carries an explicit identifier, two runs
    of [parseConfig] on the configuration, from whatever states, return the
    same clean configuration, and in every slot the identifiers of the
    descriptors are those of the nodes. *)
Theorem parseConfig_stable_on_explicit_ids (config : Config) (s1 s2 : State) :
  allExplicit config = true →
  let clean1 := (parseConfig generated config s1).1 in
  let clean2 := (parseConfig generated config s2).1 in
  clean1 = clean2
  ∧ map nodeId (fieldList (actions clean1)) = map nodeId (fieldList (actions config))
  ∧ map nodeId (fieldList (mapButtons clean1)) = map nodeId (fieldList (mapButtons config))
  ∧ map nodeId (navigateNodes clean1) = map nodeId (navigateNodes config)
  ∧ map nodeId (paneNodes clean1) = map nodeId (paneNodes config)
  ∧ map nodeId (fieldList (buttons clean1)) = map nodeId (fieldList (buttons config)).
Proof.
  intros Hall. cbv zeta. rewrite !parseConfig_closed. cbn [fst].
  apply allExplicit_slots in Hall as (Hp & Hb & Ha & Hm & Hn).
  destruct config as [a m n p b r]. unfold cleanConfig, paneNodes, navigateNodes in *.
  cbn [actions mapButtons navigateAction pane buttons rest] in *.
  split; [f_equal|repeat split].
  - destruct a as [| |l]; try done. f_equal. by apply descriptors_explicit.
  - destruct m as [| |l]; try done. f_equal. by apply descriptors_explicit.
  - destruct n as [| |[[| |i] [f|] r']]; done.
  - destruct p as [| |[[| |l] r']]; try done. do 3 f_equal.
    by apply descriptors_explicit.
  - destruct b as [| |l]; try done. f_equal. by apply descriptors_explicit.
  - destruct a as [| |l]; try done. by apply (descriptors_explicit _ _ _ 0).
  - destruct m as [| |l]; try done. by apply (descriptors_explicit _ _ _ 0).
  - destruct n as [| |[[| |i] [f|] r']]; done.
  - destruct p as [| |[[| |l] r']]; try done.
    by apply (descriptors_explicit _ _ _ 0).
  - destruct b as [| |l]; try done. by apply (descriptors_explicit _ _ _ 0).
Qed.

(** * Shared identifiers *)

Lemma registrations_at (pre post : list (Slot * Node)) (k : Slot) (n : Node) (c : nat) :
  registrations generated c (pre ++ (k, n) :: post)
  = registrations generated c pre
    ++ registration generated k n (generatorCalls pre + c)
    ++ registrations generated (calls k n + (generatorCalls pre + c)) post.
Proof. by rewrite registrations_app. Qed.

Lemma aliveIds_at (pre post : list (Slot * Node)) (k : Slot) (n : Node) (c : nat) :
  aliveIds generated c (pre ++ (k, n) :: post)
  = aliveIds generated c pre
    ++ pushed generated k n (generatorCalls pre + c)
    ++ aliveIds generated (calls k n + (generatorCalls pre + c)) post.
Proof. by rewrite aliveIds_app. Qed.

(** No node of [items] writes the registry at [x]. *)
Lemma registrations_avoid (items : list (Slot * Node)) (x : string) (c : nat) :
  (∀ k n c', (k, n) ∈ items → onPress n ≠ None →
             assignedId generated k n c' ≠ Some x) →
  x ∉ (registrations generated c items).*1.
Proof.
  revert c. induction items as [|[k n] items IH]; intros c Hno.
  - cbn. apply not_elem_of_nil.
  - cbn [registrations]. rewrite fmap_app, elem_of_app. intros [Hx|Hx].
    + unfold registration in Hx.
      destruct (assignedId generated k n c) as [i|] eqn:Hi;
        [|by apply elem_of_nil in Hx].
      destruct (onPress n) as [f|] eqn:Hf; [|by apply elem_of_nil in Hx].
      cbn in Hx. apply list_elem_of_singleton in Hx as ->.
      apply (Hno k n c); [left|congruence|done].
    + revert Hx. apply IH. intros k' n' c' Hin. apply Hno. by right.
Qed.

(** C7. Two callback-bearing nodes of one configuration share the explicit
    identifier [x]: [parseConfig] returns as usual, and the registry holds
    at [x] the callback of the node processed later, provided no node
    processed after it writes at [x] again. *)
Theorem shared_id_last_write_wins (config : Config) (s : State)
    (pre mid post : list (Slot * Node)) (k1 k2 : Slot) (n1 n2 : Node)
    (x : string) (f1 f2 : Callback) :
  walkOrder config = pre ++ (k1, n1) :: mid ++ (k2, n2) :: post →
  nodeId n1 = Value x → onPress n1 = Some f1 →
  nodeId n2 = Value x → onPress n2 = Some f2 →
  (∀ k n c, (k, n) ∈ post → onPress n ≠ None →
            assignedId generated k n c ≠ Some x) →
  pressableCallbacks (parseConfig generated config s).2 !! x = Some f2.
Proof.
  intros Hwalk _ _ Hid2 Hf2 Hpost.
  rewrite parseConfig_closed. cbn [snd pressableCallbacks].
  set (before := pre ++ (k1, n1) :: mid).
  replace (walkOrder config) with (before ++ (k2, n2) :: post)
    by (subst before; by rewrite Hwalk, <- app_assoc).
  rewrite lookup_pruned, aliveIds_at, registrations_at.
  assert (assignedId generated k2 n2 (generatorCalls before + nextId s) = Some x) as Hx.
  { unfold assignedId. by rewrite Hid2. }
  unfold pushed, registration. rewrite Hx, Hf2.
  rewrite decide_True by (rewrite !elem_of_app; right; left; by left).
  cbn [app]. apply lookup_upserts_last. by apply registrations_avoid.
Qed.

(** * Buttons *)

Lemma length_descriptors (k : Slot) (l : list Node) (c : nat) :
  length (descriptors generated k c l) = length l.
Proof. revert c. induction l as [|n l IH]; intros c; cbn; by rewrite ?IH. Qed.

Lemma descriptors_lookup (k : Slot) (l : list Node) (c i : nat) (n : Node) :
  l !! i = Some n →
  descriptors generated k c l !! i
  = Some (descriptor generated k n (slotCalls k (take i l) + c)).
Proof.
  revert c i. induction l as [|m l IH]; intros c [|i] Hi; try done.
  - by injection Hi as ->.
  - cbn in Hi. cbn [descriptors]. rewrite lookup_cons, (IH _ _ Hi).
    unfold slotCalls. cbn. do 2 f_equal. lia.
Qed.

Lemma walkOrder_button (config : Config) (l : list Node) (i : nat) (b : Node) :
  buttons config = Value l → l !! i = Some b →
  walkOrder config
  = (map (pair ActionSlot) (paneNodes config) ++ map (pair ButtonSlot) (take i l))
    ++ (ButtonSlot, b)
       :: (map (pair ButtonSlot) (drop (S i) l)
           ++ map (pair ActionSlot) (fieldList (actions config))
           ++ map (pair ActionSlot) (fieldList (mapButtons config))
           ++ map (pair ActionSlot) (navigateNodes config)).
Proof.
  intros Hb Hi. unfold walkOrder. rewrite Hb. cbn [fieldList].
  rewrite <- (take_drop_middle l i b Hi) at 1.
  rewrite map_app. cbn [map]. by rewrite <- !app_assoc.
Qed.

(** C1, as the code has it. A button without an [id] gets exactly one
    descriptor, at its position. An identifier is generated for it during
    the call and pushed onto [callbackIds]; the descriptor carries it only
    if the button has an [onPress] callback. Without a callback the
    descriptor is the button as it came, with no identifier. The identifier
    is non-empty when those of the generator are. *)
Theorem button_without_id (config : Config) (s : State) (l : list Node)
    (i : nat) (b : Node) :
  buttons config = Value l → l !! i = Some b → hasExplicitId b = false →
  let r := parseConfig generated config s in
  let c := slotCalls ButtonSlot (take i l)
           + (slotCalls ActionSlot (paneNodes config) + nextId s) in
  ∃ outs, buttons r.1 = Value outs ∧ length outs = length l
    ∧ nextId s ≤ c < nextId r.2
    ∧ generated c ∈ callbackIds r.2
    ∧ ((∀ k, generated k ≠ "") → generated c ≠ "")
    ∧ (onPress b = None → outs !! i = Some b)
    ∧ (∀ f, onPress b = Some f →
            outs !! i = Some (mkNode (Value (generated c)) None (nodeRest b))).
Proof.
  intros Hb Hi Hid. cbv zeta. rewrite parseConfig_closed.
  cbn [fst snd nextId callbackIds]. unfold cleanConfig at 1. cbn [buttons].
  rewrite Hb. eexists. split; [done|].
  assert (calls ButtonSlot b = 1
          ∧ ∀ c, assignedId generated ButtonSlot b c = Some (generated c))
    as [Hcalls Hassigned].
  { unfold calls, assignedId. unfold hasExplicitId in Hid.
    by destruct (nodeId b). }
  rewrite (walkOrder_button config l i b Hb Hi).
  split; [apply length_descriptors|]. split.
  { rewrite !generatorCalls_app. cbn [generatorCalls]. rewrite Hcalls.
    unfold slotCalls. lia. }
  split.
  { rewrite aliveIds_at, generatorCalls_app. unfold pushed.
    rewrite Hassigned, !elem_of_app. right. left.
    unfold slotCalls. apply list_elem_of_singleton. f_equal. lia. }
  split; [by intros Hne|].
  rewrite (descriptors_lookup _ _ _ _ _ Hi). unfold descriptor.
  rewrite Hassigned. split.
  - by intros ->.
  - by intros f ->.
Qed.

(** * The keys of the registry *)

Lemma bearingIds_descriptors (k : Slot) (l : list Node) (c : nat) :
  bearingIds l (descriptors generated k c l)
  = (registrations generated c (map (pair k) l)).*1.
Proof.
  revert c. induction l as [|n l IH]; intros c; [done|].
  cbn [descriptors map registrations]. rewrite fmap_app, <- IH.
  unfold bearingIds. cbn [zip zip_with omap list_omap fst snd].
  unfold descriptor, registration.
  destruct n as [[| |i] [f|] r], k; reflexivity.
Qed.

Lemma paneNodes_clean (config : Config) (c : nat) :
  paneNodes (cleanConfig generated config c)
  = descriptors generated ActionSlot c (paneNodes config).
Proof.
  unfold paneNodes, cleanConfig. cbn [pane].
  by destruct (pane config) as [| |[[| |l] r]].
Qed.

Lemma bearingIds_navigateAction (config : Config) (c0 : nat) :
  bearingIds (navigateNodes config) (navigateNodes (cleanConfig generated config c0))
  = (registrations generated
       (slotCalls ActionSlot (fieldList (mapButtons config))
        + (slotCalls ActionSlot (fieldList (actions config))
           + (slotCalls ButtonSlot (fieldList (buttons config))
              + (slotCalls ActionSlot (paneNodes config) + c0))))
       (map (pair ActionSlot) (navigateNodes config))).*1.
Proof.
  unfold navigateNodes, cleanConfig. cbn [navigateAction].
  by destruct (navigateAction config) as [| |[[| |i] [f|] r]].
Qed.

Lemma callbackBearingIds_clean (config : Config) (c : nat) :
  callbackBearingIds config (cleanConfig generated config c)
  = (registrations generated c (walkOrder config)).*1.
Proof.
  unfold callbackBearingIds, walkOrder.
  rewrite !registrations_app, !fmap_app.
  rewrite paneNodes_clean, bearingIds_navigateAction.
  rewrite <- !bearingIds_descriptors. unfold slotCalls, cleanConfig.
  cbn [buttons actions mapButtons].
  by destruct (buttons config) as [| |lb], (actions config) as [| |la],
    (mapButtons config) as [| |lm].
Qed.

Lemma registrations_alive (items : list (Slot * Node)) (c : nat) (i : string) :
  i ∈ (registrations generated c items).*1 → i ∈ aliveIds generated c items.
Proof.
  revert c. induction items as [|[k n] items IH]; intros c; [done|].
  cbn [registrations aliveIds]. rewrite fmap_app, !elem_of_app.
  intros [Hi|Hi]; [left|right; by apply IH].
  unfold registration, pushed in *.
  destruct (assignedId generated k n c); [|by apply elem_of_nil in Hi].
  destruct (onPress n); [done|by apply elem_of_nil in Hi].
Qed.

Lemma aliveIds_assigned (items : list (Slot * Node)) (c : nat) (i : string) :
  i ∈ aliveIds generated c items →
  ∃ k n c', (k, n) ∈ items ∧ assignedId generated k n c' = Some i.
Proof.
  revert c. induction items as [|[k n] items IH]; intros c.
  - intros Hi. by apply elem_of_nil in Hi.
  - cbn [aliveIds]. rewrite elem_of_app. intros [Hi|Hi].
    + exists k, n, c. split; [by left|]. unfold pushed in Hi.
      destruct (assignedId generated k n c); [|by apply elem_of_nil in Hi].
      by apply list_elem_of_singleton in Hi as ->.
    + destruct (IH _ Hi) as (k' & n' & c' & Hin & Hc').
      exists k', n', c'. split; [by right|done].
Qed.

Lemma explicit_id_alive (items : list (Slot * Node)) (c : nat) (k : Slot)
    (n : Node) (i : string) :
  (k, n) ∈ items → nodeId n = Value i → i ∈ aliveIds generated c items.
Proof.
  intros Hin Hid. apply list_elem_of_split in Hin as (pre & post & ->).
  rewrite aliveIds_at, !elem_of_app. right. left.
  unfold pushed, assignedId. rewrite Hid. by left.
Qed.

(** C2, as the code has it. After a call the keys of the registry are the
    identifiers of the clean configuration that come from callback-bearing
    nodes, together with those keys from before the call that the call
    pushed onto [callbackIds]. The call pushes the identifier of every node,
    with a callback or without: each explicit identifier is pushed, and
    whatever is pushed is the identifier assigned to a node of the
    configuration. *)
Theorem registry_keys_after_parseConfig (config : Config) (s : State) :
  let r := parseConfig generated config s in
  (∀ i, i ∈ dom (pressableCallbacks r.2)
        ↔ i ∈ callbackBearingIds config r.1
          ∨ (i ∈ dom (pressableCallbacks s) ∧ i ∈ callbackIds r.2))
  ∧ (∀ k n i, (k, n) ∈ walkOrder config → nodeId n = Value i →
              i ∈ callbackIds r.2)
  ∧ (∀ i, i ∈ callbackIds r.2 →
          ∃ k n c, (k, n) ∈ walkOrder config
                   ∧ assignedId generated k n c = Some i).
Proof.
  cbv zeta. rewrite parseConfig_closed.
  cbn [fst snd pressableCallbacks callbackIds]. split; [|split].
  - intros i. rewrite callbackBearingIds_clean, elem_of_dom, lookup_pruned.
    case_decide as Halive.
    + rewrite <- elem_of_dom, elem_of_dom_upserts. tauto.
    + split; [by intros []|].
      intros [Hi|[_ Hi]]; [|done]. by apply registrations_alive in Hi.
  - intros k n i. apply explicit_id_alive.
  - intros i. apply aliveIds_assigned.
Qed.

(** * Callbacks leave the configuration *)

Lemma itemDescriptors_app (l1 l2 : list (Slot * Node)) (c : nat) :
  itemDescriptors generated c (l1 ++ l2)
  = itemDescriptors generated c l1
    ++ itemDescriptors generated (generatorCalls l1 + c) l2.
Proof.
  revert c. induction l1 as [|[k n] l1 IH]; intros c; [done|].
  cbn. rewrite IH. do 3 f_equal. lia.
Qed.

Lemma itemDescriptors_slot (k : Slot) (l : list Node) (c : nat) :
  itemDescriptors generated c (map (pair k) l)
  = map (pair k) (descriptors generated k c l).
Proof. revert c. induction l as [|n l IH]; intros c; cbn; by rewrite ?IH. Qed.

Lemma itemDescriptors_lookup (items : list (Slot * Node)) (c j : nat)
    (k : Slot) (n : Node) :
  items !! j = Some (k, n) →
  itemDescriptors generated c items !! j
  = Some (k, descriptor generated k n (generatorCalls (take j items) + c)).
Proof.
  revert c j. induction items as [|[k' n'] items IH]; intros c [|j] Hj; try done.
  - by injection Hj as -> ->.
  - cbn in Hj. cbn [itemDescriptors]. rewrite lookup_cons, (IH _ _ Hj).
    cbn. do 3 f_equal. lia.
Qed.

Lemma itemDescriptors_elem (items : list (Slot * Node)) (c : nat) (k : Slot)
    (o : Node) :
  (k, o) ∈ itemDescriptors generated c items →
  ∃ n c', (k, n) ∈ items ∧ o = descriptor generated k n c'.
Proof.
  revert c. induction items as [|[k' n'] items IH]; intros c.
  - intros Hin. by apply elem_of_nil in Hin.
  - cbn [itemDescriptors]. rewrite elem_of_cons. intros [Heq|Hin].
    + injection Heq as -> ->. exists n', c. split; [by left|done].
    + destruct (IH _ Hin) as (n & c' & Hn & Ho).
      exists n, c'. split; [by right|done].
Qed.

Lemma fieldList_buttons_clean (config : Config) (c : nat) :
  fieldList (buttons (cleanConfig generated config c))
  = descriptors generated ButtonSlot
      (slotCalls ActionSlot (paneNodes config) + c) (fieldList (buttons config)).
Proof. unfold cleanConfig. cbn [buttons]. by destruct (buttons config). Qed.

Lemma fieldList_actions_clean (config : Config) (c : nat) :
  fieldList (actions (cleanConfig generated config c))
  = descriptors generated ActionSlot
      (slotCalls ButtonSlot (fieldList (buttons config))
       + (slotCalls ActionSlot (paneNodes config) + c))
      (fieldList (actions config)).
Proof. unfold cleanConfig. cbn [actions]. by destruct (actions config). Qed.

Lemma fieldList_mapButtons_clean (config : Config) (c : nat) :
  fieldList (mapButtons (cleanConfig generated config c))
  = descriptors generated ActionSlot
      (slotCalls ActionSlot (fieldList (actions config))
       + (slotCalls ButtonSlot (fieldList (buttons config))
          + (slotCalls ActionSlot (paneNodes config) + c)))
      (fieldList (mapButtons config)).
Proof. unfold cleanConfig. cbn [mapButtons]. by destruct (mapButtons config). Qed.

(** The clean configuration holds the descriptors of all nodes, in the
    order of the walk, but for a [navigateAction] whose [id] is
    [undefined], which is left out. *)
Lemma walkOrder_clean (config : Config) (c : nat) :
  ∃ tail,
    itemDescriptors generated c (walkOrder config)
    = walkOrder (cleanConfig generated config c) ++ tail
    ∧ Forall (λ x : Slot * Node, nodeId x.2 = Undefined) tail.
Proof.
  assert (∃ tail,
    descriptors generated ActionSlot
      (slotCalls ActionSlot (fieldList (mapButtons config))
       + (slotCalls ActionSlot (fieldList (actions config))
          + (slotCalls ButtonSlot (fieldList (buttons config))
             + (slotCalls ActionSlot (paneNodes config) + c))))
      (navigateNodes config)
    = navigateNodes (cleanConfig generated config c) ++ tail
    ∧ Forall (λ n : Node, nodeId n = Undefined) tail) as (tail & Hnav & Htail).
  { unfold navigateNodes, cleanConfig. cbn [navigateAction].
    destruct (navigateAction config) as [| |[[| |i] [f|] r]];
      try (by exists []);
      eexists [_]; (split; [reflexivity|by repeat constructor]). }
  exists (map (pair ActionSlot) tail). split.
  - unfold walkOrder at 1. rewrite !itemDescriptors_app, !itemDescriptors_slot.
    unfold walkOrder. rewrite paneNodes_clean, fieldList_buttons_clean,
      fieldList_actions_clean, fieldList_mapButtons_clean.
    fold (slotCalls ActionSlot (paneNodes config))
         (slotCalls ButtonSlot (fieldList (buttons config)))
         (slotCalls ActionSlot (fieldList (actions config)))
         (slotCalls ActionSlot (fieldList (mapButtons config))).
    rewrite Hnav, map_app, <- !app_assoc. done.
  - apply Forall_fmap. by eapply Forall_impl.
Qed.

(** A registry write is the write of a node, at the count the walk has
    reached when it gets to that node. *)
Lemma registrations_position (items : list (Slot * Node)) (c : nat) (i : string) :
  i ∈ (registrations generated c items).*1 →
  ∃ j k n, items !! j = Some (k, n) ∧ onPress n ≠ None
           ∧ assignedId generated k n (generatorCalls (take j items) + c) = Some i.
Proof.
  revert c. induction items as [|[k n] items IH]; intros c.
  - intros Hi. by apply elem_of_nil in Hi.
  - cbn [registrations]. rewrite fmap_app, elem_of_app. intros [Hi|Hi].
    + exists 0, k, n. split; [done|]. unfold registration in Hi.
      destruct (assignedId generated k n c) as [x|] eqn:Hx;
        [|by apply elem_of_nil in Hi].
      destruct (onPress n) as [f|] eqn:Hf; [|by apply elem_of_nil in Hi].
      apply list_elem_of_singleton in Hi as ->. done.
    + destruct (IH _ Hi) as (j & k' & n' & Hj & Hf & Ha).
      exists (S j), k', n'. split; [done|]. split; [done|].
      cbn [take generatorCalls].
      by replace (calls k n + generatorCalls (take j items) + c)
        with (generatorCalls (take j items) + (calls k n + c)) by lia.
Qed.

(** C3, as the code has it. Take a node of one of the five slots that
    carries an [onPress] callback, but not an action whose [id] key holds
    [undefined]. Its descriptor, at the same place in the clean
    configuration, has no callback and carries the identifier of the node
    (the explicit one when there is one, a generated one otherwise). That
    identifier is a key of the registry after the call, bound to the
    callback of the node unless a callback-bearing node processed later is
    given the same identifier, at the count the walk has reached by then.
    When no action has an undefined [id] next to a callback, no descriptor
    of the five slots has a callback. *)
Theorem callbacks_move_to_registry (config : Config) (s : State) :
  let r := parseConfig generated config s in
  (∀ j k n f,
     walkOrder config !! j = Some (k, n) → onPress n = Some f →
     ¬ (k = ActionSlot ∧ nodeId n = Undefined) →
     ∃ i, walkOrder r.1 !! j = Some (k, mkNode (Value i) None (nodeRest n))
          ∧ (∀ x, nodeId n = Value x → i = x)
          ∧ i ∈ dom (pressableCallbacks r.2)
          ∧ ((∀ j' k' n', j < j' → walkOrder config !! j' = Some (k', n') →
                          onPress n' ≠ None →
                          assignedId generated k' n'
                            (generatorCalls (take j' (walkOrder config)) + nextId s)
                          ≠ Some i) →
             pressableCallbacks r.2 !! i = Some f))
  ∧ ((∀ k n, (k, n) ∈ walkOrder config → onPress n ≠ None →
             ¬ (k = ActionSlot ∧ nodeId n = Undefined)) →
     ∀ k o, (k, o) ∈ walkOrder r.1 → onPress o = None).
Proof.
  cbv zeta. rewrite parseConfig_closed. cbn [fst snd pressableCallbacks].
  destruct (walkOrder_clean config (nextId s)) as (tail & Hclean & Htail).
  split.
  - intros j k n f Hj Hf Hid.
    set (c := generatorCalls (take j (walkOrder config)) + nextId s).
    assert (∃ i, assignedId generated k n c = Some i
                 ∧ ∀ x, nodeId n = Value x → i = x) as (i & Hi & Hexplicit).
    { unfold assignedId. destruct (nodeId n) as [| |x] eqn:Hn, k;
        try (eexists; split; [reflexivity|]; congruence).
      by destruct Hid. }
    exists i. split; [|split; [done|]].
    { pose proof (itemDescriptors_lookup _ (nextId s) _ _ _ Hj) as Hd.
      fold c in Hd. unfold descriptor in Hd. rewrite Hi, Hf, Hclean in Hd.
      apply lookup_app_Some in Hd as [Hd|[_ Hd]]; [done|].
      apply list_elem_of_lookup_2 in Hd.
      by apply (proj1 (Forall_forall _ _) Htail) in Hd. }
    pose proof (take_drop_middle _ _ _ Hj) as Hsplit.
    assert (aliveIds generated (nextId s) (walkOrder config)
            = aliveIds generated (nextId s) (take j (walkOrder config))
              ++ pushed generated k n c
              ++ aliveIds generated (calls k n + c)
                   (drop (S j) (walkOrder config))) as ->.
    { rewrite <- Hsplit at 1. apply aliveIds_at. }
    assert (registrations generated (nextId s) (walkOrder config)
            = registrations generated (nextId s) (take j (walkOrder config))
              ++ registration generated k n c
              ++ registrations generated (calls k n + c)
                   (drop (S j) (walkOrder config))) as ->.
    { rewrite <- Hsplit at 1. apply registrations_at. }
    unfold pushed, registration. rewrite Hi, Hf.
    assert (i ∈ aliveIds generated (nextId s) (take j (walkOrder config))
                ++ [i] ++ aliveIds generated (calls k n + c)
                                   (drop (S j) (walkOrder config))) as Halive.
    { rewrite !elem_of_app. right. left. by left. }
    split.
    + rewrite elem_of_dom, lookup_pruned, decide_True by done.
      rewrite <- elem_of_dom, elem_of_dom_upserts, !fmap_app, !elem_of_app.
      right. right. left. by left.
    + intros Hlater. rewrite lookup_pruned, decide_True by done.
      cbn [app]. apply lookup_upserts_last. intros Hin.
      apply registrations_position in Hin as (j' & k' & n' & Hj' & Hf' & Ha).
      rewrite lookup_drop in Hj'.
      apply (Hlater (S j + j') k' n'); [lia|done|done|].
      rewrite <- Ha. f_equal.
      rewrite <- take_take_drop, (take_S_r _ _ _ Hj), !generatorCalls_app.
      cbn [generatorCalls]. subst c. lia.
  - intros Hid k o Hin.
    assert ((k, o) ∈ itemDescriptors generated (nextId s) (walkOrder config)) as Hd.
    { rewrite Hclean, elem_of_app. by left. }
    apply itemDescriptors_elem in Hd as (n & c & Hn & ->).
    unfold descriptor. destruct (onPress n) as [f|] eqn:Hf.
    + destruct (assignedId generated k n c) as [i|] eqn:Hi; [done|].
      exfalso. apply (Hid k n Hn); [by rewrite Hf|].
      unfold assignedId in Hi. by destruct (nodeId n), k.
    + by destruct (assignedId generated k n c).
Qed.

End Facts.

(** * The properties on concrete inputs *)

(** C5 at an input where the code departs from it. Neither ["valueOf"] nor
    ["toString"] is a key of the empty registry, yet the listener finds a
    function under each name on the prototype and calls it: the first call
    throws, the second returns. An event whose [buttonId] names nothing on
    the prototype is dropped, as the claim has it. *)
Theorem buttonPressed_inherited_name :
  pressableCallbacks noCallbacks !! "valueOf" = None
  ∧ buttonPressed objectPrototype (mkEvent None "valueOf") noCallbacks
    = InheritedThrew "valueOf"
  ∧ pressableCallbacks noCallbacks !! "toString" = None
  ∧ buttonPressed objectPrototype (mkEvent None "toString") noCallbacks
    = InheritedCalled "toString"
  ∧ buttonPressed objectPrototype (mkEvent None "y") registryX = Dropped.
Proof. repeat split. Qed.

Lemma buttonPressed_ignores_templateId_witness :
  buttonPressed objectPrototype (mkEvent (Some "other") "x") registryX
  = buttonPressed objectPrototype (mkEvent None "x") registryX
  ∧ buttonPressed objectPrototype (mkEvent None "x") registryX = Invoked "f".
Proof.
  destruct (buttonPressed_ignores_templateId objectPrototype
              (mkEvent (Some "other") "x") (mkEvent None "x") registryX)
    as [Hsame Hcalled]; [reflexivity|].
  split; [exact Hsame|]. apply Hcalled. reflexivity.
Defined.

Lemma parseConfig_without_navigateAction_witness :
  let r := parseConfig counting onePressableButton noCallbacks in
  navigateAction r.1 = Absent ∧ nextId r.2 = 1.
Proof.
  apply (proj2 (parseConfig_without_navigateAction counting noCallbacks)
           onePressableButton).
  reflexivity.
Defined.

Lemma absent_fields_in_clean_config_witness :
  let clean := (parseConfig counting (emptyConfig tt) noCallbacks).1 in
  pane clean = Undefined ∧ buttons clean = Undefined ∧ actions clean = Absent
  ∧ mapButtons clean = Absent ∧ navigateAction clean = Absent.
Proof.
  destruct (absent_fields_in_clean_config counting (emptyConfig tt) noCallbacks)
    as (Hp & Hb & Ha & Hm & Hn).
  cbv zeta.
  split; [apply Hp; reflexivity|]. split; [apply Hb; reflexivity|].
  split; [apply Ha; reflexivity|]. split; [apply Hm; reflexivity|].
  apply Hn; reflexivity.
Defined.

Lemma parseConfig_stable_on_explicit_ids_witness :
  allExplicit explicitConfig = true
  ∧ (parseConfig counting explicitConfig noCallbacks).1
    = (parseConfig counting explicitConfig
         (parseConfig counting explicitConfig noCallbacks).2).1.
Proof.
  split; [reflexivity|].
  apply (parseConfig_stable_on_explicit_ids counting explicitConfig noCallbacks
           (parseConfig counting explicitConfig noCallbacks).2).
  reflexivity.
Defined.

Lemma shared_id_last_write_wins_witness :
  pressableCallbacks (parseConfig counting sharedId noCallbacks).2 !! "x"
  = Some "f2".
Proof.
  apply (shared_id_last_write_wins counting sharedId noCallbacks [] [] []
           ActionSlot ActionSlot
           (mkNode (Value "x") (Some "f1") tt) (mkNode (Value "x") (Some "f2") tt)
           "x" "f1" "f2"); try reflexivity.
  intros k n c Hin. by apply elem_of_nil in Hin.
Defined.

Lemma button_without_id_witness :
  ∃ outs, buttons (parseConfig counting oneBareButton noCallbacks).1 = Value outs
          ∧ length outs = 1
          ∧ outs !! 0 = Some (mkNode Absent None tt).
Proof.
  destruct (button_without_id counting oneBareButton noCallbacks
              [mkNode Absent None tt] 0 (mkNode Absent None tt))
    as (outs & Hb & Hlen & _ & _ & _ & Hbare & _); try reflexivity.
  exists outs. split; [exact Hb|]. split; [exact Hlen|].
  apply Hbare. reflexivity.
Defined.

Lemma registry_keys_after_parseConfig_witness :
  "a" ∈ callbackIds (parseConfig counting (actionA None) noCallbacks).2.
Proof.
  apply (proj1 (proj2 (registry_keys_after_parseConfig counting (actionA None)
                         noCallbacks))
           ActionSlot (mkNode (Value "a") None tt) "a").
  - apply list_elem_of_here.
  - reflexivity.
Defined.

Lemma callbacks_move_to_registry_witness :
  ∃ i, walkOrder (parseConfig counting twoGenerated noCallbacks).1 !! 0
       = Some (ActionSlot, mkNode (Value i) None tt)
       ∧ i ∈ dom (pressableCallbacks (parseConfig counting twoGenerated noCallbacks).2)
       ∧ pressableCallbacks (parseConfig counting twoGenerated noCallbacks).2 !! i
         = Some "f".
Proof.
  destruct (proj1 (callbacks_move_to_registry counting twoGenerated noCallbacks)
              0 ActionSlot (mkNode Absent (Some "f") tt) "f")
    as (i & Hd & _ & Hdom & Hbound); try reflexivity.
  - intros [_ Hu]. discriminate Hu.
  - exists i. split; [exact Hd|]. split; [exact Hdom|].
    apply Hbound. intros j' k' n' Hlt Hj' _ Ha.
    vm_compute in Hd. injection Hd as <-.
    destruct j' as [|[|j']]; [lia| |discriminate Hj'].
    injection Hj' as <- <-. vm_compute in Ha. discriminate Ha.
Defined.

(** * Where the code departs from the spec *)

(** C1 fails: for [{buttons: [{}]}] the one descriptor carries no
    identifier at all. *)
Lemma bare_button_gets_no_id :
  ¬ ∃ o i, buttons (parseConfig counting oneBareButton noCallbacks).1 = Value [o]
           ∧ nodeId o = Value i ∧ i ≠ "".
Proof.
  intros (o & i & Hb & Hi & _). vm_compute in Hb.
  injection Hb as <-. discriminate Hi.
Qed.

(** C2 fails: after [{actions: [{id: "a", onPress: f1}]}] and then
    [{actions: [{id: "a"}]}] the key ["a"] is still in the registry, while
    no identifier of the second clean configuration comes from a
    callback-bearing node. *)
Lemma stale_key_survives :
  let s1 := (constructor counting 0 (actionA (Some "f1"))).2 in
  let r := parseConfig counting (actionA None) s1 in
  ¬ (∀ i, i ∈ dom (pressableCallbacks r.2)
          ↔ i ∈ callbackBearingIds (actionA None) r.1).
Proof.
  cbv zeta. intros Hkeys.
  assert ("a" ∈ callbackBearingIds (actionA None)
                  (parseConfig counting (actionA None)
                     (constructor counting 0 (actionA (Some "f1"))).2).1) as Hin.
  { apply Hkeys. apply elem_of_dom. exists "f1". by vm_compute. }
  vm_compute in Hin. by apply elem_of_nil in Hin.
Qed.

(** C3 fails: the action [{id: undefined, onPress: f}] is returned as it
    came, callback included, and nothing is stored for it. *)
Lemma undefined_id_keeps_callback :
  let r := parseConfig counting undefinedIdAction noCallbacks in
  ¬ (∀ k o, (k, o) ∈ walkOrder r.1 → onPress o = None)
  ∧ pressableCallbacks r.2 = ∅.
Proof.
  cbv zeta. split.
  - intros Hnone.
    specialize (Hnone ActionSlot (mkNode Undefined (Some "f") tt)).
    discriminate Hnone. vm_compute. apply list_elem_of_here.
  - by vm_compute.
Qed.

(** * Further facts about [parseConfig] *)

Section Reconfiguration.

Context {Callback Data : Type}.
Variable generated : nat → string.

Local Abbreviation Node := (@Node Callback Data).
Local Abbreviation Config := (@Config Callback Data).
Local Abbreviation State := (@State Callback).

(** ** What the walk leaves alone *)

Lemma nodeRest_descriptors (k : Slot) (l : list Node) (c : nat) :
  map nodeRest (descriptors generated k c l) = map nodeRest l.
Proof.
  revert c. induction l as [|n l IH]; intros c; [done|].
  cbn [descriptors map]. rewrite IH. f_equal.
  unfold descriptor. by destruct (assignedId generated k n c), (onPress n).
Qed.

(** X1. The walk touches [id] and [onPress] only: the other properties of
    the configuration, of the pane and of every node come out as they went
    in, and every list keeps its length and order. *)
Theorem parseConfig_passes_data_through (config : Config) (s : State) :
  let clean := (parseConfig generated config s).1 in
  rest clean = rest config
  ∧ map nodeRest (fieldList (actions clean)) = map nodeRest (fieldList (actions config))
  ∧ map nodeRest (fieldList (mapButtons clean))
    = map nodeRest (fieldList (mapButtons config))
  ∧ map nodeRest (fieldList (buttons clean)) = map nodeRest (fieldList (buttons config))
  ∧ map nodeRest (paneNodes clean) = map nodeRest (paneNodes config)
  ∧ (∀ p, pane config = Value p →
          ∃ p', pane clean = Value p' ∧ paneRest p' = paneRest p)
  ∧ (∀ n o, navigateAction config = Value n → navigateAction clean = Value o →
            nodeRest o = nodeRest n).
Proof.
  cbv zeta. rewrite parseConfig_closed. cbn [fst].
  rewrite fieldList_actions_clean, fieldList_mapButtons_clean,
    fieldList_buttons_clean, paneNodes_clean, !nodeRest_descriptors.
  do 5 (split; [done|]). unfold cleanConfig. cbn [pane navigateAction]. split.
  - intros p ->. by eexists.
  - intros n o -> Ho.
    destruct (assignedId generated ActionSlot n _) as [i|]; [|done].
    injection Ho as <-. unfold descriptor.
    by destruct (assignedId generated ActionSlot n _), (onPress n).
Qed.

Lemma descriptors_lookup_no_callback (k : Slot) (l : list Node) (c i : nat) (n : Node) :
  l !! i = Some n → onPress n = None →
  descriptors generated k c l !! i = Some n.
Proof.
  intros Hi Hf. rewrite (descriptors_lookup generated k l c i n Hi).
  unfold descriptor. rewrite Hf. by destruct (assignedId generated k n _).
Qed.

(** X2. A node without an [onPress] callback is returned as it came, in
    every slot: an identifier generated for it is not attached. The
    [navigateAction] is the exception when its [id] holds [undefined]: then
    the key is left out. *)
Theorem node_without_callback_unchanged (config : Config) (s : State) :
  let clean := (parseConfig generated config s).1 in
  (∀ i n, fieldList (actions config) !! i = Some n → onPress n = None →
          fieldList (actions clean) !! i = Some n)
  ∧ (∀ i n, fieldList (mapButtons config) !! i = Some n → onPress n = None →
            fieldList (mapButtons clean) !! i = Some n)
  ∧ (∀ i n, fieldList (buttons config) !! i = Some n → onPress n = None →
            fieldList (buttons clean) !! i = Some n)
  ∧ (∀ i n, paneNodes config !! i = Some n → onPress n = None →
            paneNodes clean !! i = Some n)
  ∧ (∀ n, navigateAction config = Value n → onPress n = None →
          navigateAction clean
          = match nodeId n with
            | Undefined => Absent
            | _ => Value n
            end).
Proof.
  cbv zeta. rewrite parseConfig_closed. cbn [fst].
  rewrite fieldList_actions_clean, fieldList_mapButtons_clean,
    fieldList_buttons_clean, paneNodes_clean.
  do 4 (split; [intros i n; apply descriptors_lookup_no_callback|]).
  intros n Hn Hf. unfold cleanConfig. cbn [navigateAction]. rewrite Hn.
  unfold descriptor, assignedId. rewrite Hf. by destruct (nodeId n).
Qed.

(** ** Where registry entries come from *)

Lemma lookup_upserts_Some (l : list (string * Callback)) (m : gmap string Callback)
    (i : string) (f : Callback) :
  upserts m l !! i = Some f → m !! i = Some f ∨ (i, f) ∈ l.
Proof.
  revert m. induction l as [|[j g] l IH]; intros m; [by left|].
  rewrite upserts_cons. intros Hi. apply IH in Hi as [Hi|Hi].
  - destruct (decide (j = i)) as [->|Hne].
    + rewrite lookup_insert_eq in Hi. injection Hi as ->. right. by left.
    + rewrite lookup_insert_ne in Hi by done. by left.
  - right. by right.
Qed.

Lemma registrations_elem (items : list (Slot * Node)) (c : nat) (i : string)
    (f : Callback) :
  (i, f) ∈ registrations generated c items →
  ∃ k n c', c ≤ c' ∧ (k, n) ∈ items ∧ onPress n = Some f
            ∧ assignedId generated k n c' = Some i.
Proof.
  revert c. induction items as [|[k n] items IH]; intros c.
  - intros Hi. by apply elem_of_nil in Hi.
  - cbn [registrations]. rewrite elem_of_app. intros [Hi|Hi].
    + unfold registration in Hi.
      destruct (assignedId generated k n c) as [j|] eqn:Hj;
        [|by apply elem_of_nil in Hi].
      destruct (onPress n) as [g|] eqn:Hg; [|by apply elem_of_nil in Hi].
      apply list_elem_of_singleton in Hi. injection Hi as -> ->.
      exists k, n, c. repeat split; [lia|by left|done|done].
    + destruct (IH _ Hi) as (k' & n' & c' & Hc & Hin & Hf & Ha).
      exists k', n', c'. repeat split; [lia|by right|done|done].
Qed.

(** X3. Whatever the registry holds after a call is accounted for: the key
    was pushed onto [callbackIds] by this call, and the callback is either
    the one the registry held at that key before the call or the [onPress]
    of a node of the configuration that was given that identifier. *)
Theorem registry_entries_provenance (config : Config) (s : State) (i : string)
    (f : Callback) :
  let r := parseConfig generated config s in
  pressableCallbacks r.2 !! i = Some f →
  i ∈ callbackIds r.2
  ∧ (pressableCallbacks s !! i = Some f
     ∨ ∃ k n c, nextId s ≤ c ∧ (k, n) ∈ walkOrder config ∧ onPress n = Some f
                ∧ assignedId generated k n c = Some i).
Proof.
  cbv zeta. rewrite parseConfig_closed. cbn [snd pressableCallbacks callbackIds].
  rewrite lookup_pruned. case_decide as Halive; [|done].
  intros Hi. split; [done|].
  apply lookup_upserts_Some in Hi as [Hi|Hi]; [by left|right].
  by apply registrations_elem.
Qed.

(** X4. Right after construction, when the registry started empty, its keys
    are exactly the identifiers of the clean configuration that come from
    callback-bearing nodes. *)
Theorem constructor_registry_keys (k : nat) (config : Config) (i : string) :
  let r := constructor generated k config in
  i ∈ dom (pressableCallbacks r.2) ↔ i ∈ callbackBearingIds config r.1.
Proof.
  cbv zeta. unfold constructor. rewrite parseConfig_closed.
  cbn [fst snd pressableCallbacks nextId].
  rewrite callbackBearingIds_clean, elem_of_dom, lookup_pruned.
  case_decide as Halive.
  - rewrite <- elem_of_dom, elem_of_dom_upserts, dom_empty, elem_of_empty. tauto.
  - split; [by intros []|]. intros Hi. by apply registrations_alive in Hi.
Qed.

(** ** Parsing a clean configuration again *)

Lemma descriptor_idem (k : Slot) (n : Node) (c c' : nat) :
  descriptor generated k (descriptor generated k n c) c'
  = descriptor generated k n c.
Proof. by destruct n as [[| |i] [f|] r], k. Qed.

Lemma descriptors_idem (k : Slot) (l : list Node) (c c' : nat) :
  descriptors generated k c' (descriptors generated k c l)
  = descriptors generated k c l.
Proof.
  revert c c'. induction l as [|n l IH]; intros c c'; [done|].
  cbn [descriptors]. by rewrite descriptor_idem, IH.
Qed.

Lemma cleanConfig_idem (config : Config) (c c' : nat) :
  cleanConfig generated (cleanConfig generated config c) c'
  = cleanConfig generated config c.
Proof.
  unfold cleanConfig at 1.
  rewrite fieldList_actions_clean, fieldList_mapButtons_clean,
    fieldList_buttons_clean, paneNodes_clean.
  unfold cleanConfig.
  cbn [actions mapButtons navigateAction pane buttons rest paneActions paneRest].
  f_equal.
  - destruct (actions config); try done. by rewrite descriptors_idem.
  - destruct (mapButtons config); try done. by rewrite descriptors_idem.
  - by destruct (navigateAction config) as [| |[[| |i] [f|] r]].
  - destruct (pane config) as [| |[[| |l] r]]; try done.
    cbn [paneActions paneRest]. by rewrite descriptors_idem.
  - destruct (buttons config); try done. by rewrite descriptors_idem.
Qed.

Lemma registration_descriptor (k : Slot) (n : Node) (c c' : nat) :
  registration generated k (descriptor generated k n c) c' = [].
Proof. by destruct n as [[| |i] [f|] r], k. Qed.

Lemma registrations_none (items : list (Slot * Node)) (c : nat) :
  (∀ k o c', (k, o) ∈ items → registration generated k o c' = []) →
  registrations generated c items = [].
Proof.
  revert c. induction items as [|[k o] items IH]; intros c Hnone; [done|].
  cbn [registrations]. rewrite (Hnone k o c) by by left.
  apply IH. intros k' o' c' Hin. apply Hnone. by right.
Qed.

Lemma elem_of_walkOrder_clean (config : Config) (c : nat) (k : Slot) (o : Node) :
  (k, o) ∈ walkOrder (cleanConfig generated config c) →
  (k, o) ∈ itemDescriptors generated c (walkOrder config).
Proof.
  destruct (walkOrder_clean generated config c) as (tail & -> & _).
  rewrite elem_of_app. by left.
Qed.

Lemma registrations_clean (config : Config) (c c' : nat) :
  registrations generated c' (walkOrder (cleanConfig generated config c)) = [].
Proof.
  apply registrations_none. intros k o c'' Hin.
  apply elem_of_walkOrder_clean, itemDescriptors_elem in Hin as (n & c0 & _ & ->).
  apply registration_descriptor.
Qed.

(** A descriptor with an identifier is in the clean configuration, so a
    second walk pushes that identifier. *)
Lemma descriptor_id_alive (config : Config) (c c' : nat) (k : Slot) (o : Node)
    (i : string) :
  (k, o) ∈ itemDescriptors generated c (walkOrder config) →
  nodeId o = Value i →
  i ∈ aliveIds generated c' (walkOrder (cleanConfig generated config c)).
Proof.
  destruct (walkOrder_clean generated config c) as (tail & -> & Htail).
  rewrite elem_of_app. intros [Hin|Hin] Hid.
  - by apply (explicit_id_alive generated _ _ k o).
  - apply (proj1 (Forall_forall _ _) Htail) in Hin. cbn in Hin. congruence.
Qed.

Lemma registrations_descriptor (items : list (Slot * Node)) (c : nat) (i : string) :
  i ∈ (registrations generated c items).*1 →
  ∃ k o, (k, o) ∈ itemDescriptors generated c items ∧ nodeId o = Value i.
Proof.
  revert c. induction items as [|[k n] items IH]; intros c.
  - intros Hi. by apply elem_of_nil in Hi.
  - cbn [registrations itemDescriptors]. rewrite fmap_app, elem_of_app.
    intros [Hi|Hi].
    + exists k, (descriptor generated k n c). split; [by left|].
      unfold registration, descriptor in *.
      destruct (assignedId generated k n c) as [j|];
        [|by apply elem_of_nil in Hi].
      destruct (onPress n) as [g|]; [|by apply elem_of_nil in Hi].
      by apply list_elem_of_singleton in Hi as ->.
    + destruct (IH _ Hi) as (k' & o & Hin & Hid).
      exists k', o. split; [by right|done].
Qed.

Lemma aliveIds_cases (items : list (Slot * Node)) (c : nat) (i : string) :
  i ∈ aliveIds generated c items →
  (∃ k o, (k, o) ∈ itemDescriptors generated c items ∧ nodeId o = Value i)
  ∨ (∃ c', c ≤ c' ∧ i = generated c').
Proof.
  revert c. induction items as [|[k n] items IH]; intros c.
  - intros Hi. by apply elem_of_nil in Hi.
  - cbn [aliveIds itemDescriptors]. rewrite elem_of_app. intros [Hi|Hi].
    + unfold pushed in Hi.
      destruct (assignedId generated k n c) as [j|] eqn:Hj;
        [|by apply elem_of_nil in Hi].
      apply list_elem_of_singleton in Hi as ->.
      destruct (nodeId n) as [| |x] eqn:Hn.
      * right. exists c. split; [done|].
        unfold assignedId in Hj. rewrite Hn in Hj. by destruct k; injection Hj.
      * right. exists c. split; [done|].
        unfold assignedId in Hj. rewrite Hn in Hj. by destruct k; [|injection Hj].
      * left. exists k, (descriptor generated k n c). split; [by left|].
        unfold assignedId in Hj. rewrite Hn in Hj.
        assert (x = j) as -> by (by destruct k; injection Hj).
        unfold descriptor, assignedId. rewrite Hn.
        by destruct k, (onPress n).
    + destruct (IH _ Hi) as [(k' & o & Hin & Hid)|(c' & Hc & ->)].
      * left. exists k', o. split; [by right|done].
      * right. exists c'. split; [lia|done].
Qed.

(** X5. The clean configuration is a fixed point of the walk: parsed again,
    from any state, it comes back as it is. And when the identifiers still
    to be generated are not keys of the registry, parsing the clean
    configuration right after the call that produced it keeps the registry
    entry for entry, so the callbacks that were moved out stay reachable. *)
Theorem reparse_clean_config (config : Config) (s : State) :
  let r := parseConfig generated config s in
  (∀ s', (parseConfig generated r.1 s').1 = r.1)
  ∧ ((∀ c, nextId s ≤ c → generated c ∉ dom (pressableCallbacks s)) →
     pressableCallbacks (parseConfig generated r.1 r.2).2 = pressableCallbacks r.2).
Proof.
  cbv zeta. split.
  - intros s'. rewrite !parseConfig_closed. cbn [fst]. apply cleanConfig_idem.
  - intros Hfresh. rewrite !parseConfig_closed.
    cbn [fst snd pressableCallbacks nextId].
    rewrite registrations_clean, upserts_nil.
    apply map_eq. intros i. rewrite lookup_pruned.
    case_decide as Halive2; [done|].
    rewrite lookup_pruned. case_decide as Halive1; [|done].
    destruct (upserts _ _ !! i) as [f|] eqn:Hi; [|done].
    exfalso. apply Halive2.
    assert (i ∈ dom (upserts (pressableCallbacks s)
                       (registrations generated (nextId s) (walkOrder config))))
      as Hdom by (apply elem_of_dom; by exists f).
    apply elem_of_dom_upserts in Hdom as [Hold|Hnew].
    + apply aliveIds_cases in Halive1 as [(k & o & Hin & Hid)|(c & Hc & ->)].
      * by apply (descriptor_id_alive config _ _ k o).
      * by destruct (Hfresh c Hc).
    + apply registrations_descriptor in Hnew as (k & o & Hin & Hid).
      by apply (descriptor_id_alive config _ _ k o).
Qed.

(** ** Dispatch on generated identifiers *)

Section DispatchAfterParse.

Variable inherited : string → option Inherited.

Lemma registrations_avoid_from (items : list (Slot * Node)) (x : string) (c : nat) :
  (∀ k n c', c ≤ c' → (k, n) ∈ items → onPress n ≠ None →
             assignedId generated k n c' ≠ Some x) →
  x ∉ (registrations generated c items).*1.
Proof.
  intros Hno Hx. apply list_elem_of_fmap in Hx as ([i f] & -> & Hin).
  apply registrations_elem in Hin as (k & n & c' & Hc & Hn & Hf & Ha).
  apply (Hno k n c' Hc Hn); [congruence|done].
Qed.

(** X6. Let the generator be injective from the current count on and never
    return an explicit identifier of the configuration. Then a node that
    has an [onPress] callback and no [id] gets a descriptor with a generated
    identifier, and a [buttonPressed] event with that identifier calls the
    callback of that node. *)
Theorem generated_id_dispatches (config : Config) (s : State) (t : option string)
    (j : nat) (k : Slot) (n : Node) (f : Callback) :
  (∀ c c', nextId s ≤ c → nextId s ≤ c' → generated c = generated c' → c = c') →
  (∀ c k' n' x, nextId s ≤ c → (k', n') ∈ walkOrder config →
                nodeId n' = Value x → generated c ≠ x) →
  walkOrder config !! j = Some (k, n) → onPress n = Some f → calls k n = 1 →
  let r := parseConfig generated config s in
  ∃ i, walkOrder r.1 !! j = Some (k, mkNode (Value i) None (nodeRest n))
       ∧ buttonPressed inherited (mkEvent t i) r.2 = Invoked f.
Proof.
  intros Hinj Hexplicit Hj Hf Hcalls. cbv zeta. rewrite parseConfig_closed.
  unfold buttonPressed. cbn [fst snd pressableCallbacks buttonId].
  set (c := generatorCalls (take j (walkOrder config)) + nextId s).
  assert (assignedId generated k n c = Some (generated c)) as Hi.
  { unfold calls in Hcalls. unfold assignedId. by destruct (nodeId n), k. }
  exists (generated c). split.
  { destruct (walkOrder_clean generated config (nextId s)) as (tail & Hclean & Htail).
    pose proof (itemDescriptors_lookup generated _ (nextId s) _ _ _ Hj) as Hd.
    fold c in Hd. unfold descriptor in Hd. rewrite Hi, Hf, Hclean in Hd.
    apply lookup_app_Some in Hd as [Hd|[_ Hd]]; [done|].
    apply list_elem_of_lookup_2 in Hd.
    by apply (proj1 (Forall_forall _ _) Htail) in Hd. }
  pose proof (take_drop_middle _ _ _ Hj) as Hsplit.
  assert (aliveIds generated (nextId s) (walkOrder config)
          = aliveIds generated (nextId s) (take j (walkOrder config))
            ++ pushed generated k n c
            ++ aliveIds generated (calls k n + c)
                 (drop (S j) (walkOrder config))) as ->.
  { rewrite <- Hsplit at 1. apply aliveIds_at. }
  assert (registrations generated (nextId s) (walkOrder config)
          = registrations generated (nextId s) (take j (walkOrder config))
            ++ registration generated k n c
            ++ registrations generated (calls k n + c)
                 (drop (S j) (walkOrder config))) as ->.
  { rewrite <- Hsplit at 1. apply registrations_at. }
  unfold pushed, registration. rewrite Hi, Hf, Hcalls.
  rewrite lookup_pruned, decide_True
    by (rewrite !elem_of_app; right; left; by left).
  cbn [app]. rewrite lookup_upserts_last; [done|].
  apply registrations_avoid_from. intros k' n' c' Hc' Hin _ Ha.
  assert ((k', n') ∈ walkOrder config) as Hin'.
  { rewrite <- Hsplit, elem_of_app. right. by right. }
  unfold assignedId in Ha. destruct (nodeId n') as [| |x] eqn:Hn'.
  - injection Ha as Ha. apply Hinj in Ha; subst c; lia.
  - destruct k'; [done|]. injection Ha as Ha. apply Hinj in Ha; subst c; lia.
  - assert (x = generated c) as -> by (by destruct k'; injection Ha).
    apply (Hexplicit c k' n' (generated c)); [subst c; lia|done|done|done].
Qed.

(** ** Nodes that are gone *)

Lemma aliveIds_assigned_from (items : list (Slot * Node)) (c : nat) (i : string) :
  i ∈ aliveIds generated c items →
  ∃ k n c', c ≤ c' ∧ (k, n) ∈ items ∧ assignedId generated k n c' = Some i.
Proof.
  revert c. induction items as [|[k n] items IH]; intros c.
  - intros Hi. by apply elem_of_nil in Hi.
  - cbn [aliveIds]. rewrite elem_of_app. intros [Hi|Hi].
    + exists k, n, c. split; [done|]. split; [by left|]. unfold pushed in Hi.
      destruct (assignedId generated k n c); [|by apply elem_of_nil in Hi].
      by apply list_elem_of_singleton in Hi as ->.
    + destruct (IH _ Hi) as (k' & n' & c' & Hc & Hin & Ha).
      exists k', n', c'. split; [lia|]. split; [by right|done].
Qed.

(** X12. An identifier that the call assigns to no node of the
    configuration is not a key of the registry afterwards, whatever the
    registry held before. A [buttonPressed] event that carries it calls no
    callback of the registry, and it is dropped when the registry inherits
    nothing under that name. *)
Theorem removed_node_is_dropped (config : Config) (s : State) (i : string)
    (t : option string) :
  (∀ k n c, nextId s ≤ c → (k, n) ∈ walkOrder config →
            assignedId generated k n c ≠ Some i) →
  let r := parseConfig generated config s in
  pressableCallbacks r.2 !! i = None
  ∧ (∀ f, buttonPressed inherited (mkEvent t i) r.2 ≠ Invoked f)
  ∧ (inherited i = None → buttonPressed inherited (mkEvent t i) r.2 = Dropped).
Proof.
  intros Hgone. cbv zeta.
  assert (pressableCallbacks (parseConfig generated config s).2 !! i = None)
    as Hmiss.
  { rewrite parseConfig_closed. cbn [snd pressableCallbacks].
    rewrite lookup_pruned, decide_False; [done|].
    intros Hi. apply aliveIds_assigned_from in Hi as (k & n & c & Hc & Hin & Ha).
    by apply (Hgone k n c). }
  split; [done|]. unfold buttonPressed. cbn [buttonId]. rewrite Hmiss. split.
  - intros f. by destruct (inherited i) as [[| |]|].
  - by intros ->.
Qed.

End DispatchAfterParse.

End Reconfiguration.

(** * Facts about the telemetry observer *)

Module TelemetryFacts.

Import Telemetry.

#[local] Arguments count {Double} p l : simpl never.

Section Observer.

Context {Float Double : Type}.
Variable toDouble : Float → Double.
Variable divThousand : Float → Double.
Variable timesKmh : Float → Double.
Variable seconds : Z → Double.
Variable LEVEL_3 : nat.
Variable CARPLAY_TELEMETRY_INTERVAL_MS : Z.

Local Abbreviation Observer := (@Observer Double).
Local Abbreviation Input := (@Input Float).
Local Abbreviation step :=
  (step toDouble divThousand timesKmh seconds LEVEL_3 CARPLAY_TELEMETRY_INTERVAL_MS).
Local Abbreviation run :=
  (run toDouble divThousand timesKmh seconds LEVEL_3 CARPLAY_TELEMETRY_INTERVAL_MS).

(** ** Runs and the log *)

Lemma run_snoc (o : Observer) (inputs : list Input) (i : Input) :
  run o (inputs ++ [i]) = step (run o inputs) i.
Proof. unfold Telemetry.run. by rewrite foldl_app. Qed.

Lemma count_snoc (p : Effect → bool) (l : list (@Effect Double)) (e : Effect) :
  count p (l ++ [e]) = count p l + (if p e then 1 else 0).
Proof.
  unfold count. rewrite filter_app, length_app. f_equal.
  rewrite filter_cons, filter_nil. by destruct (p e); case_decide.
Qed.

(** ** What a step does to the telemetry map *)

(** A step leaves an entry as it is, or writes one of the five keys; what
    it writes under ["speed"] has no value. *)
Lemma step_telemetry (o : Observer) (i : Input) (k : string) :
  telemetry (step o i) !! k = telemetry o !! k
  ∨ (k ∈ telemetryKeys
     ∧ ∃ r, telemetry (step o i) !! k = Some r
            ∧ (k = "speed" → readingValue r = None)).
Proof.
  destruct i as [ctx em| |m|e now|sp now|m now|]; cbn [Telemetry.step].
  - left. unfold startTelemetryObserver.
    destruct (_ <? _); [done|]. cbn. by destruct (isRunning o).
  - left. unfold stopTelemetryObserver. by destruct (carContext o).
  - left. unfold mModelListener, emit. by destruct (eventEmitter o).
  - unfold mEnergyLevelListener.
    destruct (isSuccess (status (batteryPercent e))),
      (isSuccess (status (fuelPercent e))),
      (isSuccess (status (rangeRemainingMeters e)));
      cbn [telemetry putReading]; rewrite ?lookup_insert;
      repeat case_decide; subst;
      first [ by left
            | right; split;
              [ unfold telemetryKeys; repeat constructor
              | eexists; split; [reflexivity|done] ] ].
  - unfold mSpeedListener.
    destruct (isSuccess _); [|by left].
    destruct (value _); cbn [telemetry putReading]; rewrite lookup_insert;
      case_decide; subst;
      first [ by left
            | right; split;
              [ unfold telemetryKeys; repeat constructor
              | eexists; split; [reflexivity|done] ] ].
  - unfold mMileageListener.
    destruct (isSuccess _); [|by left].
    cbn [telemetry putReading]. rewrite lookup_insert.
    case_decide; subst; [|by left].
    right. split; [unfold telemetryKeys; repeat constructor|].
    eexists. split; [reflexivity|done].
  - left. unfold emitterRun, emit.
    by destruct (isTelemetryDirty o), (eventEmitter o).
Qed.

(** A step adds to the log; a snapshot it emits is the map it found. *)
Lemma step_effects (o : Observer) (i : Input) :
  ∃ added, effects (step o i) = effects o ++ added
           ∧ ∀ em snap, Emit em (TelemetryPayload snap) ∈ added → snap = telemetry o.
Proof.
  destruct i as [ctx em| |m|e now|sp now|m now|]; cbn [Telemetry.step].
  - unfold startTelemetryObserver. destruct (_ <? _).
    + eexists [_]. split; [done|]. intros em' snap Hin.
      apply list_elem_of_singleton in Hin. discriminate Hin.
    + cbn. destruct (isRunning o); cbn; rewrite <- ?app_assoc; cbn;
        (eexists; split; [reflexivity|]); intros em' snap Hin;
        repeat (apply elem_of_cons in Hin as [Hin|Hin]; [discriminate Hin|]);
        by apply elem_of_nil in Hin.
  - unfold stopTelemetryObserver. destruct (carContext o); cbn;
      rewrite <- ?app_assoc; cbn;
      (eexists; split; [reflexivity|]); intros em' snap Hin;
      repeat (apply elem_of_cons in Hin as [Hin|Hin]; [discriminate Hin|]);
      by apply elem_of_nil in Hin.
  - unfold mModelListener, emit. destruct (eventEmitter o); cbn.
    + eexists [_]. split; [done|]. intros em' snap Hin.
      apply list_elem_of_singleton in Hin. discriminate Hin.
    + exists []. split; [by rewrite app_nil_r|]. intros em' snap Hin.
      by apply elem_of_nil in Hin.
  - exists []. split.
    + rewrite app_nil_r. unfold mEnergyLevelListener.
      by destruct (isSuccess (status (batteryPercent e))),
        (isSuccess (status (fuelPercent e))),
        (isSuccess (status (rangeRemainingMeters e))).
    + intros em' snap Hin. by apply elem_of_nil in Hin.
  - exists []. split.
    + rewrite app_nil_r. unfold mSpeedListener.
      destruct (isSuccess _); [|done]. by destruct (value _).
    + intros em' snap Hin. by apply elem_of_nil in Hin.
  - exists []. split.
    + rewrite app_nil_r. unfold mMileageListener. by destruct (isSuccess _).
    + intros em' snap Hin. by apply elem_of_nil in Hin.
  - unfold emitterRun, emit.
    destruct (isTelemetryDirty o), (eventEmitter o); cbn;
      rewrite <- ?app_assoc; cbn;
      (eexists; split; [reflexivity|]); intros em' snap Hin;
      repeat (apply elem_of_cons in Hin as [Hin|Hin];
              [by (discriminate Hin || injection Hin as _ ->)|]);
      by apply elem_of_nil in Hin.
Qed.

(** ** Invariants of a run *)

(** Every entry of the map, and of every snapshot emitted so far, is under
    one of the five keys, and under ["speed"] it has no value. *)
Lemma run_entries (inputs : list Input) :
  let o := run initial inputs in
  (∀ k r, telemetry o !! k = Some r →
          k ∈ telemetryKeys ∧ (k = "speed" → readingValue r = None))
  ∧ (∀ em snap k r, Emit em (TelemetryPayload snap) ∈ effects o →
                    snap !! k = Some r →
                    k ∈ telemetryKeys ∧ (k = "speed" → readingValue r = None)).
Proof.
  cbv zeta. induction inputs as [|i inputs [IHmap IHlog]] using rev_ind.
  - split.
    + intros k r Hk. cbn in Hk. by rewrite lookup_empty in Hk.
    + intros em snap k r Hin. by apply elem_of_nil in Hin.
  - rewrite run_snoc. split.
    + intros k r Hk.
      destruct (step_telemetry (run initial inputs) i k)
        as [Hsame|(Hkey & r' & Hr' & Hspeed)].
      * rewrite Hsame in Hk. by apply IHmap.
      * rewrite Hr' in Hk. injection Hk as <-. done.
    + intros em snap k r Hin Hk.
      destruct (step_effects (run initial inputs) i)
        as (added & Hadded & Hsnap).
      rewrite Hadded, elem_of_app in Hin. destruct Hin as [Hin|Hin].
      * by apply (IHlog em snap).
      * apply Hsnap in Hin as ->. by apply IHmap.
Qed.

Lemma run_keeps_entries (inputs : list Input) (o : Observer) (k : string) :
  is_Some (telemetry o !! k) → is_Some (telemetry (run o inputs) !! k).
Proof.
  induction inputs as [|i inputs IH] using rev_ind; [done|].
  intros Hk. rewrite run_snoc.
  destruct (step_telemetry (run o inputs) i k)
    as [->|(_ & r & -> & _)]; [by apply IH|by eexists].
Qed.

(** X7. The ["speed"] entry never carries a value: in the telemetry map
    after any run, and in every snapshot handed to the event emitter, it is
    missing or its value is null. A speed that the car reports with a value
    is put under ["odometer"], in km/h, and leaves ["speed"] as it was. *)
Theorem speed_entry_has_no_value (inputs : list Input) :
  let o := run initial inputs in
  (∀ r, telemetry o !! "speed" = Some r → readingValue r = None)
  ∧ (∀ em snap r, Emit em (TelemetryPayload snap) ∈ effects o →
                  snap !! "speed" = Some r → readingValue r = None)
  ∧ (∀ (o' : Observer) sp now v,
       isSuccess (status (displaySpeedMetersPerSecond sp)) = true →
       value (displaySpeedMetersPerSecond sp) = Some v →
       telemetry (mSpeedListener timesKmh seconds sp now o')
       = <["odometer" := mkReading (Some (timesKmh v)) (seconds now)]> (telemetry o')).
Proof.
  cbv zeta. destruct (run_entries inputs) as [Hmap Hlog]. split; [|split].
  - intros r Hr. by apply (Hmap "speed" r).
  - intros em snap r Hin Hr. by apply (Hlog em snap "speed" r).
  - intros o' sp now v Hok Hv. unfold mSpeedListener. by rewrite Hok, Hv.
Qed.

(** X8. The telemetry map only grows, and only under five keys: an entry,
    once written, is there after any further run, and after any run from
    the initial state the keys of the map and of every emitted snapshot are
    among [batteryLevel], [fuelLevel], [range], [odometer] and [speed]. *)
Theorem telemetry_keys (inputs : list Input) :
  (∀ k, k ∈ dom (telemetry (run initial inputs)) → k ∈ telemetryKeys)
  ∧ (∀ em snap k, Emit em (TelemetryPayload snap) ∈ effects (run initial inputs) →
                  k ∈ dom snap → k ∈ telemetryKeys)
  ∧ (∀ (o : Observer) k, k ∈ dom (telemetry o) → k ∈ dom (telemetry (run o inputs))).
Proof.
  destruct (run_entries inputs) as [Hmap Hlog]. split; [|split].
  - intros k Hk. apply elem_of_dom in Hk as [r Hr]. by apply (Hmap k r).
  - intros em snap k Hin Hk. apply elem_of_dom in Hk as [r Hr].
    by apply (Hlog em snap k r).
  - intros o k Hk. apply elem_of_dom. apply run_keeps_entries.
    by apply elem_of_dom.
Qed.

(** ** Emissions follow readings *)

Lemma step_emissions (o : Observer) (i : Input) :
  count isTelemetryEmit (effects (step o i))
  + (if isTelemetryDirty (step o i) then 1 else 0)
  ≤ count isTelemetryEmit (effects o)
    + (if isTelemetryDirty o then 1 else 0)
    + (if stores i then 1 else 0).
Proof.
  destruct i as [ctx em| |m|e now|sp now|m now|]; cbn [Telemetry.step stores].
  - unfold startTelemetryObserver. destruct (_ <? _); cbn.
    + rewrite count_snoc. cbn. lia.
    + destruct (isRunning o); cbn; rewrite !count_snoc; cbn; lia.
  - unfold stopTelemetryObserver.
    destruct (carContext o); cbn; rewrite !count_snoc; cbn; lia.
  - unfold mModelListener, emit.
    destruct (eventEmitter o); cbn; rewrite ?count_snoc; cbn; lia.
  - unfold mEnergyLevelListener.
    destruct (isSuccess (status (batteryPercent e))),
      (isSuccess (status (fuelPercent e))),
      (isSuccess (status (rangeRemainingMeters e))); cbn;
      destruct (isTelemetryDirty o); lia.
  - unfold mSpeedListener. destruct (isSuccess _); [|lia].
    destruct (value _); cbn; destruct (isTelemetryDirty o); lia.
  - unfold mMileageListener. destruct (isSuccess _); [|lia].
    cbn. destruct (isTelemetryDirty o); lia.
  - unfold emitterRun, emit.
    destruct (isTelemetryDirty o) eqn:Hdirty, (eventEmitter o); cbn;
      rewrite !count_snoc, ?Hdirty; cbn; lia.
Qed.

Lemma run_emissions (inputs : list Input) (o : Observer) :
  count isTelemetryEmit (effects (run o inputs))
  + (if isTelemetryDirty (run o inputs) then 1 else 0)
  ≤ count isTelemetryEmit (effects o)
    + (if isTelemetryDirty o then 1 else 0)
    + length (filter (λ i, stores i = true) inputs).
Proof.
  induction inputs as [|i inputs IH] using rev_ind; [cbn; lia|].
  rewrite run_snoc, filter_app, length_app.
  pose proof (step_emissions (run o inputs) i) as Hstep.
  assert (length (filter (λ i : Input, stores i = true) [i])
          = if stores i then 1 else 0) as ->.
  { rewrite filter_cons, filter_nil. by destruct (stores i); case_decide. }
  lia.
Qed.

(** X9. Telemetry is coalesced: after any run from the initial state the
    emitter has sent at most as many snapshots as there were car data
    events with a value to store, so a tick without a new reading sends
    nothing. In particular, of two ticks in a row the second sends
    nothing. *)
Theorem emissions_bounded_by_readings (inputs : list Input) :
  count isTelemetryEmit (effects (run initial inputs))
  ≤ length (filter (λ i, stores i = true) inputs)
  ∧ ∀ o : Observer,
      effects (emitterRun CARPLAY_TELEMETRY_INTERVAL_MS
                 (emitterRun CARPLAY_TELEMETRY_INTERVAL_MS o))
      = effects (emitterRun CARPLAY_TELEMETRY_INTERVAL_MS o)
        ++ [PostDelayed CARPLAY_TELEMETRY_INTERVAL_MS].
Proof.
  split.
  - pose proof (run_emissions inputs initial) as Hrun. cbn in Hrun.
    change (count isTelemetryEmit []) with 0 in Hrun.
    destruct (isTelemetryDirty _); lia.
  - intros [running ctx [em|] map [|] l]; reflexivity.
Qed.

(** ** Registration *)

Lemma step_registrations (o : Observer) (i : Input) :
  count isPost (effects o)
  ≤ count isRemoveCallbacks (effects o) + (if isRunning o then 1 else 0) →
  count isAddListener (effects o) = 3 * count isPost (effects o) →
  count isPost (effects (step o i))
  ≤ count isRemoveCallbacks (effects (step o i))
    + (if isRunning (step o i) then 1 else 0)
  ∧ count isAddListener (effects (step o i)) = 3 * count isPost (effects (step o i)).
Proof.
  intros Hposts Hadds.
  destruct i as [ctx em| |m|e now|sp now|m now|]; cbn [Telemetry.step].
  - unfold startTelemetryObserver. destruct (_ <? _); cbn.
    + rewrite !count_snoc. cbn. lia.
    + destruct (isRunning o); cbn; rewrite !count_snoc; cbn; lia.
  - unfold stopTelemetryObserver.
    destruct (carContext o), (isRunning o); cbn; rewrite !count_snoc; cbn; lia.
  - unfold mModelListener, emit.
    destruct (eventEmitter o); cbn; rewrite ?count_snoc; cbn; lia.
  - unfold mEnergyLevelListener.
    by destruct (isSuccess (status (batteryPercent e))),
      (isSuccess (status (fuelPercent e))),
      (isSuccess (status (rangeRemainingMeters e))).
  - unfold mSpeedListener. destruct (isSuccess _); [|done].
    by destruct (value _).
  - unfold mMileageListener. by destruct (isSuccess _).
  - unfold emitterRun, emit.
    destruct (isTelemetryDirty o), (eventEmitter o); cbn;
      rewrite !count_snoc; cbn; lia.
Qed.

(** X10. Listeners and the emitter are not registered twice: in any run
    from the initial state [handler.post(emitter)] happens at most once more
    than [handler.removeCallbacks(emitter)], and not more often while the
    observer is stopped; and the three car data listeners are added
    exactly when the emitter is posted. *)
Theorem registered_once_per_stop (inputs : list Input) :
  let o := run initial inputs in
  count isPost (effects o)
  ≤ count isRemoveCallbacks (effects o) + (if isRunning o then 1 else 0)
  ∧ count isAddListener (effects o) = 3 * count isPost (effects o).
Proof.
  cbv zeta. induction inputs as [|i inputs [IHposts IHadds]] using rev_ind.
  - unfold count. cbn. lia.
  - rewrite run_snoc. by apply step_registrations.
Qed.

(** ** A start on an old car *)

(** X11. Below API level 3 a start is rejected without a call to the car
    hardware, and the running flag, the map and the dirty flag stay. But the
    context and the emitter were replaced before the test: a later stop
    removes the listeners from the rejected context, and the next snapshot
    goes to the rejected start's emitter. *)
Theorem rejected_start (ctx : CarContext) (em : string) (o : Observer) :
  carAppApiLevel ctx < LEVEL_3 →
  let o' := startTelemetryObserver LEVEL_3 ctx em o in
  effects o' = effects o ++ [Reject (carAppApiLevel ctx)]
  ∧ isRunning o' = isRunning o
  ∧ telemetry o' = telemetry o
  ∧ isTelemetryDirty o' = isTelemetryDirty o
  ∧ carContext o' = Some ctx
  ∧ eventEmitter o' = Some em
  ∧ effects (stopTelemetryObserver o')
    = effects o' ++ [RemoveEnergyLevelListener ctx; RemoveSpeedListener ctx;
                     RemoveMileageListener ctx; RemoveCallbacks]
  ∧ (isTelemetryDirty o = true →
     effects (emitterRun CARPLAY_TELEMETRY_INTERVAL_MS o')
     = effects o' ++ [Emit em (TelemetryPayload (telemetry o));
                      PostDelayed CARPLAY_TELEMETRY_INTERVAL_MS]).
Proof.
  intros Hlevel. cbv zeta. unfold startTelemetryObserver.
  rewrite (proj2 (Nat.ltb_lt _ _) Hlevel). cbn.
  repeat split; try done.
  - by rewrite <- !app_assoc.
  - intros ->. unfold emitterRun, emit. cbn. by rewrite <- !app_assoc.
Qed.

(** ** Who receives the events *)

Lemma step_emitter (o : Observer) (i : Input) (em : string) :
  eventEmitter (step o i) = Some em →
  eventEmitter o = Some em ∨ ∃ ctx, i = Start ctx em.
Proof.
  destruct i as [ctx em'| |m|e now|sp now|m now|]; cbn [Telemetry.step].
  - unfold startTelemetryObserver. destruct (_ <? _); cbn.
    + intros [= <-]. right. by exists ctx.
    + destruct (isRunning o); cbn; intros [= <-]; right; by exists ctx.
  - unfold stopTelemetryObserver. destruct (carContext o); cbn; by left.
  - unfold mModelListener, emit.
    destruct (eventEmitter o) eqn:Hem; cbn; rewrite ?Hem; by left.
  - unfold mEnergyLevelListener.
    destruct (isSuccess (status (batteryPercent e))),
      (isSuccess (status (fuelPercent e))),
      (isSuccess (status (rangeRemainingMeters e))); cbn; by left.
  - unfold mSpeedListener. destruct (isSuccess _); [|by left].
    destruct (value _); cbn; by left.
  - unfold mMileageListener. destruct (isSuccess _); cbn; by left.
  - unfold emitterRun, emit.
    destruct (isTelemetryDirty o), (eventEmitter o) eqn:Hem; cbn;
      rewrite ?Hem; by left.
Qed.

Lemma step_emits_to_current (o : Observer) (i : Input) (em : string)
    (payload : Payload) :
  Emit em payload ∈ effects (step o i) →
  Emit em payload ∈ effects o ∨ eventEmitter o = Some em.
Proof.
  assert (∀ (l : list (@Effect Double)) e, Emit em payload ∈ l ++ [e] →
            Emit em payload ∈ l ∨ Emit em payload = e) as Hsnoc.
  { intros l e. rewrite elem_of_app, list_elem_of_singleton. tauto. }
  destruct i as [ctx em'| |m|e now|sp now|m now|]; cbn [Telemetry.step].
  - unfold startTelemetryObserver. destruct (_ <? _); cbn.
    + intros [Hin|Hin]%Hsnoc; [by left|discriminate Hin].
    + destruct (isRunning o); cbn.
      * intros [[Hin|Hin]%Hsnoc|Hin]%Hsnoc; [by left|discriminate Hin..].
      * intros [[[[[[Hin|Hin]%Hsnoc|Hin]%Hsnoc|Hin]%Hsnoc|Hin]%Hsnoc|Hin]%Hsnoc
               |Hin]%Hsnoc; [by left|discriminate Hin..].
  - unfold stopTelemetryObserver. destruct (carContext o); cbn.
    + intros [[[[Hin|Hin]%Hsnoc|Hin]%Hsnoc|Hin]%Hsnoc|Hin]%Hsnoc;
        [by left|discriminate Hin..].
    + intros [Hin|Hin]%Hsnoc; [by left|discriminate Hin].
  - unfold mModelListener, emit. destruct (eventEmitter o) eqn:Hem; cbn;
      [|by left].
    intros [Hin|Hin]%Hsnoc; [by left|]. injection Hin as -> _. by right.
  - unfold mEnergyLevelListener.
    destruct (isSuccess (status (batteryPercent e))),
      (isSuccess (status (fuelPercent e))),
      (isSuccess (status (rangeRemainingMeters e))); cbn; by left.
  - unfold mSpeedListener. destruct (isSuccess _); [|by left].
    destruct (value _); cbn; by left.
  - unfold mMileageListener. destruct (isSuccess _); cbn; by left.
  - unfold emitterRun, emit.
    destruct (isTelemetryDirty o), (eventEmitter o) eqn:Hem; cbn.
    + intros [[Hin|Hin]%Hsnoc|Hin]%Hsnoc; [by left| |discriminate Hin].
      injection Hin as -> _. by right.
    + intros [Hin|Hin]%Hsnoc; [by left|discriminate Hin].
    + intros [Hin|Hin]%Hsnoc; [by left|discriminate Hin].
    + intros [Hin|Hin]%Hsnoc; [by left|discriminate Hin].
Qed.

(** X13. Events reach only an emitter that was handed to a start: in any
    run from the initial state, every event emitted so far went to the
    emitter of one of the run's [startTelemetryObserver] calls, and so does
    the emitter the object holds. Before the first start nothing is
    emitted. *)
Theorem emitter_comes_from_start (inputs : list Input) :
  let o := run initial inputs in
  (∀ em, eventEmitter o = Some em → ∃ ctx, Start ctx em ∈ inputs)
  ∧ (∀ em payload, Emit em payload ∈ effects o → ∃ ctx, Start ctx em ∈ inputs).
Proof.
  cbv zeta. induction inputs as [|i inputs [IHem IHlog]] using rev_ind.
  - split; [done|]. intros em payload Hin. by apply elem_of_nil in Hin.
  - rewrite run_snoc.
    assert (∀ em, eventEmitter (run initial inputs) = Some em →
                  ∃ ctx, Start ctx em ∈ inputs ++ [i]) as Hold.
    { intros em Hem. destruct (IHem em Hem) as [ctx Hctx].
      exists ctx. rewrite elem_of_app. by left. }
    split.
    + intros em Hem. apply step_emitter in Hem as [Hem|[ctx ->]].
      * by apply Hold.
      * exists ctx. rewrite elem_of_app. right. apply list_elem_of_here.
    + intros em payload Hin.
      apply step_emits_to_current in Hin as [Hin|Hem].
      * destruct (IHlog em payload Hin) as [ctx Hctx].
        exists ctx. rewrite elem_of_app. by left.
      * by apply Hold.
Qed.

End Observer.

End TelemetryFacts.

(** * The further properties on concrete inputs *)

Lemma parseConfig_passes_data_through_witness :
  ∃ p', pane (parseConfig counting explicitConfig noCallbacks).1 = Value p'
        ∧ paneRest p' = tt.
Proof.
  destruct (parseConfig_passes_data_through counting explicitConfig noCallbacks)
    as (_ & _ & _ & _ & _ & Hpane & _).
  apply (Hpane (mkPane (Value [mkNode (Value "p") (Some "f4") tt]) tt)).
  reflexivity.
Defined.

Lemma node_without_callback_unchanged_witness :
  fieldList (buttons (parseConfig counting oneBareButton noCallbacks).1) !! 0
  = Some (mkNode Absent None tt).
Proof.
  destruct (node_without_callback_unchanged counting oneBareButton noCallbacks)
    as (_ & _ & Hbuttons & _).
  apply Hbuttons; reflexivity.
Defined.

Lemma registry_entries_provenance_witness :
  "a" ∈ callbackIds (parseConfig counting (actionA (Some "f1")) noCallbacks).2.
Proof.
  apply (registry_entries_provenance counting (actionA (Some "f1")) noCallbacks
           "a" "f1").
  by vm_compute.
Defined.

Lemma constructor_registry_keys_witness :
  "cb-0" ∈ dom (pressableCallbacks (constructor counting 0 onePressableButton).2).
Proof.
  apply (constructor_registry_keys counting 0 onePressableButton "cb-0").
  vm_compute. apply list_elem_of_here.
Defined.

Lemma reparse_clean_config_witness :
  let r := parseConfig counting onePressableButton noCallbacks in
  pressableCallbacks (parseConfig counting r.1 r.2).2 = pressableCallbacks r.2.
Proof.
  apply (proj2 (reparse_clean_config counting onePressableButton noCallbacks)).
  intros c _. cbn. rewrite dom_empty. apply not_elem_of_empty.
Defined.

Lemma generated_id_dispatches_witness :
  ∃ i, walkOrder (parseConfig counting onePressableButton noCallbacks).1 !! 0
       = Some (ButtonSlot, mkNode (Value i) None tt)
       ∧ buttonPressed objectPrototype (mkEvent None i)
           (parseConfig counting onePressableButton noCallbacks).2
         = Invoked "f".
Proof.
  apply (generated_id_dispatches counting objectPrototype onePressableButton
           noCallbacks None 0
           ButtonSlot (mkNode Absent (Some "f") tt) "f"); try reflexivity.
  - intros c c' _ _ Heq. unfold counting in Heq.
    apply (inj (String.append "cb-")) in Heq. by apply (inj pretty) in Heq.
  - intros c k' n' x _ Hin Hid. cbn in Hin.
    apply list_elem_of_singleton in Hin. injection Hin as -> ->.
    discriminate Hid.
Defined.

Lemma speed_entry_has_no_value_witness :
  Telemetry.telemetry
    (Telemetry.mSpeedListener Telemetry.kmh Telemetry.thousandth
       (Telemetry.speedOf (Some 20%Z)) 1000 Telemetry.initial)
  = <["odometer" := Telemetry.mkReading (Some 72%Z) 1%Z]> ∅.
Proof.
  apply (proj2 (proj2 (TelemetryFacts.speed_entry_has_no_value
                         id Telemetry.thousandth Telemetry.kmh
                         Telemetry.thousandth 3 1000 []))
           Telemetry.initial (Telemetry.speedOf (Some 20%Z)) 1000%Z 20%Z);
    reflexivity.
Defined.

Lemma telemetry_keys_witness :
  "odometer" ∈ Telemetry.telemetryKeys.
Proof.
  apply (proj1 (TelemetryFacts.telemetry_keys id Telemetry.thousandth
                  Telemetry.kmh Telemetry.thousandth 3 1000 Telemetry.drive)
           "odometer").
  apply elem_of_dom. eexists. by vm_compute.
Defined.

Lemma rejected_start_witness :
  Telemetry.effects
    (Telemetry.startTelemetryObserver 3 Telemetry.oldCar "rn"
       (Telemetry.runZ Telemetry.drive))
  = Telemetry.effects (Telemetry.runZ Telemetry.drive) ++ [Telemetry.Reject 1].
Proof.
  apply (TelemetryFacts.rejected_start 3 1000 Telemetry.oldCar "rn"
           (Telemetry.runZ Telemetry.drive)).
  cbn. lia.
Defined.

Lemma removed_node_is_dropped_witness :
  let s := (parseConfig counting (actionA (Some "f1")) noCallbacks).2 in
  pressableCallbacks s !! "a" = Some "f1"
  ∧ pressableCallbacks (parseConfig counting sharedId s).2 !! "a" = None
  ∧ buttonPressed objectPrototype (mkEvent None "a")
      (parseConfig counting sharedId s).2
    = Dropped.
Proof.
  cbv zeta. split; [by vm_compute|].
  destruct (removed_node_is_dropped counting objectPrototype sharedId
              (parseConfig counting (actionA (Some "f1")) noCallbacks).2 "a" None)
    as (Hmiss & _ & Hdropped).
  - intros k n c _ Hin. cbn in Hin.
    apply elem_of_cons in Hin as [Hin|Hin];
      [|apply list_elem_of_singleton in Hin]; injection Hin as -> ->; discriminate.
  - split; [exact Hmiss|]. apply Hdropped. reflexivity.
Defined.

Lemma emitter_comes_from_start_witness :
  ∃ ctx, Telemetry.Start ctx "rn" ∈ Telemetry.drive.
Proof.
  apply (proj1 (TelemetryFacts.emitter_comes_from_start id Telemetry.thousandth
                  Telemetry.kmh Telemetry.thousandth 3 1000 Telemetry.drive)
           "rn").
  reflexivity.
Defined.
